(** * Plane-wave wavefunctions of abipy: [abipy/waves/pwwave.py]

    A shallow embedding of the classes [WaveFunction] and [PWWaveFunction]
    and of the part of numpy they call, followed by the properties of
    coefficient replacement, norms, inner products and symmetry rotation.

    Numbers.  Python floats and complex numbers are embedded as the real
    numbers of the Standard Library and pairs of them: rounding, overflow
    and NaN are outside the model, and every statement below is a statement
    about the arithmetic the code performs, read over the reals.

    Exceptions.  A Python call either returns a value or raises; it is
    embedded as a function into [result], and a method that also updates
    its object returns the object's new state next to the result. *)

From Stdlib Require Import String Ascii.
From Stdlib Require Import Reals Lra Lia ZArith Bool List.
Import ListNotations.

Set Implicit Arguments.

(** ** Exceptions and results *)

Inductive exn : Type :=
| AssertionError
| TypeError (msg : string)
| ValueError (msg : string)
| AttributeError (attr : string)
| IndexError.

Inductive result (A : Type) : Type :=
| Ok (a : A)
| Raise (e : exn).

Arguments Ok {A} a.
Arguments Raise {A} e.

Definition bind {A B : Type} (m : result A) (k : A -> result B) : result B :=
  match m with
  | Ok a => k a
  | Raise e => Raise e
  end.

Notation "x <- m ;; k" := (bind m (fun x => k))
  (at level 61, m at next level, right associativity).

(** [assert cond] *)
Definition assert (cond : bool) : result unit :=
  if cond then Ok tt else Raise AssertionError.

(** [for i in l: s = body(i, s)], stopping at the first exception. *)
Fixpoint for_each {S : Type} (l : list nat) (body : nat -> S -> result S) (s : S)
  : result S :=
  match l with
  | [] => Ok s
  | i :: l' =>
      match body i s with
      | Ok s' => for_each l' body s'
      | Raise e => Raise e
      end
  end.

(** [range(n)] *)
Definition range (n : nat) : list nat := seq 0 n.

(** ** Strings: [str.lower] on byte strings *)

Definition lower_ascii (c : ascii) : ascii :=
  let n := nat_of_ascii c in
  if (65 <=? n) && (n <=? 90) then ascii_of_nat (n + 32) else c.

Fixpoint lower (s : string) : string :=
  match s with
  | EmptyString => EmptyString
  | String c s' => String (lower_ascii c) (lower s')
  end.

(** ** Complex numbers *)

Module Cplx.

Record C : Type := mkC { Re : R; Im : R }.

Definition C0 : C := mkC 0 0.
Definition C1 : C := mkC 1 0.
Definition RtoC (x : R) : C := mkC x 0.

Definition Cadd (a b : C) : C := mkC (Re a + Re b) (Im a + Im b).
Definition Csub (a b : C) : C := mkC (Re a - Re b) (Im a - Im b).
Definition Cmul (a b : C) : C :=
  mkC (Re a * Re b - Im a * Im b) (Re a * Im b + Im a * Re b).
Definition Cconj (a : C) : C := mkC (Re a) (- Im a).

(** [abs(z)] *)
Definition Cabs (a : C) : R := sqrt (Re a * Re a + Im a * Im a).

(** [np.exp(z)] *)
Definition Cexp (z : C) : C := mkC (exp (Re z) * cos (Im z)) (exp (Re z) * sin (Im z)).

(** squared magnitude of a coefficient *)
Definition Cnorm2 (a : C) : R := Re a * Re a + Im a * Im a.

End Cplx.
Import Cplx.

(** ** Three-component vectors *)

Record vec3 (A : Type) : Type := mkVec3 { v1 : A; v2 : A; v3 : A }.

Definition vec3_list {A : Type} (v : vec3 A) : list A := [v1 v; v2 v; v3 v].

(** [np.zeros(3)] *)
Definition zeros3 : vec3 R := mkVec3 0%R 0%R 0%R.

(** [g + k] for an integer vector [g] and a float vector [k] *)
Definition vadd_ZR (g : vec3 Z) (k : vec3 R) : vec3 R :=
  mkVec3 (IZR (v1 g) + v1 k)%R (IZR (v2 g) + v2 k)%R (IZR (v3 g) + v3 k)%R.

(** [np.dot(a, b)] on two 3-vectors *)
Definition dot3 (a b : vec3 R) : R := (v1 a * v1 b + v2 a * v2 b + v3 a * v3 b)%R.

(** ** numpy arrays: a shape and a row-major buffer *)

Module Numpy.

Record ndarray (A : Type) : Type := mk_ndarray { shape : list nat; data : list A }.

Definition size_of (sh : list nat) : nat := fold_right Nat.mul 1 sh.

(** The invariant of every array: the buffer has as many cells as the shape says. *)
Definition nd_wf {A : Type} (a : ndarray A) : Prop :=
  length (data a) = size_of (shape a).

Definition ndim {A : Type} (a : ndarray A) : nat := length (shape a).

(** [np.array(a)] and [a.copy()]: a new array with the same shape and cells. *)
Definition np_array {A : Type} (a : ndarray A) : ndarray A :=
  mk_ndarray (shape a) (data a).
Definition copy {A : Type} (a : ndarray A) : ndarray A :=
  mk_ndarray (shape a) (data a).

(** [np.empty_like(a)]: same shape, cells left as the allocator found them;
    [junk k] is what cell [k] of the fresh buffer holds. *)
Definition empty_like {A : Type} (junk : nat -> A) (a : ndarray A) : ndarray A :=
  mk_ndarray (shape a) (map junk (seq 0 (length (data a)))).

(** [l[k] = v] on the buffer *)
Fixpoint upd {A : Type} (l : list A) (k : nat) (v : A) : list A :=
  match l, k with
  | [], _ => []
  | _ :: l', O => v :: l'
  | x :: l', S k' => x :: upd l' k' v
  end.

(** Cells addressed by [a[:, ig]]: every index of the first axis, [ig] on the
    second, every index of the remaining axes. *)
Definition col_cells (sh : list nat) (ig : nat) : result (list nat) :=
  match sh with
  | n0 :: n1 :: rest =>
      if ig <? n1 then
        let r := size_of rest in
        Ok (flat_map (fun i => map (fun j => (i * n1 + ig) * r + j) (seq 0 r)) (seq 0 n0))
      else Raise IndexError
  | _ => Raise IndexError
  end.

(** [np.vdot(a, b)]: both arguments flattened, the first conjugated. *)
Definition vdot (a b : ndarray C) : result C :=
  if length (data a) =? length (data b) then
    Ok (fold_left (fun acc p => Cadd acc (Cmul (Cconj (fst p)) (snd p)))
                  (combine (data a) (data b)) C0)
  else Raise (ValueError "vdot: arrays of different size").

(** numpy's default tolerances *)
Definition rtol : R := 1e-5%R.
Definition atol : R := 1e-8%R.

Definition Rleb (x y : R) : bool := if Rle_dec x y then true else false.

(** [absolute(a - b) <= atol + rtol * absolute(b)] *)
Definition isclose_R (a b : R) : bool :=
  Rleb (Rabs (a - b)) (atol + rtol * Rabs b).
Definition isclose_C (a b : C) : bool :=
  Rleb (Cabs (Csub a b)) (atol + rtol * Cabs b).

(** [np.allclose] on two 3-vectors *)
Definition allclose3 (a b : vec3 R) : bool :=
  forallb (fun p => isclose_R (fst p) (snd p)) (combine (vec3_list a) (vec3_list b)).

End Numpy.
Import Numpy.

(** ** Broadcasting and [np.allclose] on arrays *)

Module Broadcast.

(** The [n] consecutive blocks of [c] cells of a buffer. *)
Fixpoint rows {A : Type} (n c : nat) (l : list A) : list (list A) :=
  match n with
  | O => []
  | S n' => firstn c l :: rows n' c (skipn c l)
  end.

Fixpoint option_concat {A : Type} (l : list (option (list A))) : option (list A) :=
  match l with
  | [] => Some []
  | None :: _ => None
  | Some x :: l' =>
      match option_concat l' with
      | Some xs => Some (x ++ xs)
      | None => None
      end
  end.

(** Pairs of cells that numpy's broadcasting puts side by side for two shapes
    of the same rank: along an axis the lengths agree, or one of them is 1 and
    that operand is repeated; anything else does not broadcast. *)
Fixpoint bcast {A B : Type} (sa sb : list nat) (da : list A) (db : list B)
  {struct sa} : option (list (A * B)) :=
  match sa, sb with
  | [], [] => Some (combine da db)
  | na :: sa', nb :: sb' =>
      let ra := rows na (size_of sa') da in
      let rb := rows nb (size_of sb') db in
      if na =? nb then
        option_concat (map (fun p => bcast sa' sb' (fst p) (snd p)) (combine ra rb))
      else if na =? 1 then
        option_concat (map (fun b => bcast sa' sb' da b) rb)
      else if nb =? 1 then
        option_concat (map (fun a => bcast sa' sb' a db) ra)
      else None
  | _, _ => None
  end.

(** A shape completed on the left with axes of length 1. *)
Definition pad (n : nat) (sh : list nat) : list nat :=
  repeat 1 (n - length sh) ++ sh.

Definition broadcast {A B : Type} (a : ndarray A) (b : ndarray B) : option (list (A * B)) :=
  let n := Nat.max (ndim a) (ndim b) in
  bcast (pad n (shape a)) (pad n (shape b)) (data a) (data b).

(** [np.allclose(a, b)] with the default tolerances *)
Definition allclose (a b : ndarray C) : result bool :=
  match broadcast a b with
  | Some ps => Ok (forallb (fun p => isclose_C (fst p) (snd p)) ps)
  | None => Raise (ValueError "operands could not be broadcast together")
  end.

End Broadcast.
Import Broadcast.

(** ** The collaborators of the wavefunction *)

(** Modelled from the spec: class [Kpoint] of [abipy.core.kpoints], of which
    the code reads [frac_coords], the three fractional coordinates. *)
Record Kpoint : Type := mkKpoint { frac_coords : vec3 R }.

(** Modelled from the spec: the G-sphere, an ordered sequence of integer
    reciprocal-lattice vectors with a k-point and an energy cutoff. *)
Record GSphere : Type := mkGSphere {
  ecut : R;
  kpoint : Kpoint;
  gvecs : list (vec3 Z)
}.

Definition vec3_eq_dec {A : Type} (dec : forall a b : A, {a = b} + {a <> b})
  : forall u v : vec3 A, {u = v} + {u <> v}.
Proof. decide equality. Defined.

Definition GSphere_eq_dec : forall a b : GSphere, {a = b} + {a <> b}.
Proof.
  decide equality.
  - apply list_eq_dec, vec3_eq_dec, Z.eq_dec.
  - decide equality. apply vec3_eq_dec, Req_dec_T.
  - apply Req_dec_T.
Defined.

(** Modelled from the spec: [gsphere != other], the negation of the
    G-sphere's value-equality (same k-point, vectors and cutoff). *)
Definition gsphere_ne (a b : GSphere) : bool :=
  if GSphere_eq_dec a b then false else true.

(** [len(gsphere)] and [gsphere.npw]: the number of G-vectors. *)
Definition gsphere_len (g : GSphere) : nat := length (gvecs g).
Definition gsphere_npw (g : GSphere) : nat := length (gvecs g).

(** Modelled from the spec: a symmetry operation, a rotation with a fractional
    translation [tau] and the flag [is_fm] (ferromagnetic or not). *)
Record SymmOp : Type := mkSymmOp {
  rot_g : vec3 (vec3 Z);
  tau : vec3 R;
  is_fm : bool
}.

(** What the wavefunction calls and this file does not define: the methods
    of the G-sphere and of the FFT mesh, and the cells of a fresh buffer.

    Modelled from the spec: [gsphere.rotate(symmop)] produces a rotated copy
    of the sphere, a new k-point and the rotated vectors; the copy has one
    vector for each vector of the sphere. *)
Class Collaborators : Type := {
  Mesh3D : Type;
  (** [gsphere.rotate(symmop)] *)
  gsphere_rotate : GSphere -> SymmOp -> GSphere;
  gsphere_rotate_len :
    forall g s, gsphere_len (gsphere_rotate g s) = gsphere_len g;
  (** [gsphere.tofftmesh(mesh, ug)] *)
  tofftmesh : GSphere -> Mesh3D -> ndarray C -> ndarray C;
  (** [mesh.fft_g2r(ug_mesh, fg_ishifted=False)] *)
  fft_g2r : Mesh3D -> ndarray C -> ndarray C;
  (** [mesh.integrate(field)] *)
  integrate : Mesh3D -> ndarray R -> C;
  (** [mesh.dv] *)
  dv : Mesh3D -> R;
  (** cell [k] of the buffer [np.empty_like] hands out *)
  junk : nat -> C
}.

(** ** Methods: state and exceptions

    A method is a computation on the state [S] of the objects it works on:
    it returns or raises, and leaves the objects in a new state. *)

Definition M (S A : Type) : Type := S -> result A * S.

Definition ret {S A : Type} (a : A) : M S A := fun s => (Ok a, s).
Definition raise {S A : Type} (e : exn) : M S A := fun s => (Raise e, s).
Definition lift {S A : Type} (r : result A) : M S A := fun s => (r, s).
Definition read {S A : Type} (f : S -> A) : M S A := fun s => (Ok (f s), s).
Definition bindM {S A B : Type} (m : M S A) (k : A -> M S B) : M S B :=
  fun s =>
    match m s with
    | (Ok a, s') => k a s'
    | (Raise e, s') => (Raise e, s')
    end.

Notation "x <~ m ;; k" := (bindM m (fun x => k))
  (at level 61, m at next level, right associativity).

(** ** class WaveFunction / class PWWaveFunction *)

Section PWWave.

Context {collab : Collaborators}.

(** An object of class [PWWaveFunction].  The attributes [_ur] and [_mesh]
    exist only once they have been assigned: [None] is an absent attribute. *)
Record WaveFunction : Type := mkWave {
  nspinor : Z;
  spin : Z;
  band : Z;
  _gsphere : GSphere;
  _ug : ndarray C;
  _ur : option (ndarray C);
  _mesh : option Mesh3D
}.

Definition with_ur (w : WaveFunction) (r : option (ndarray C)) : WaveFunction :=
  mkWave (nspinor w) (spin w) (band w) (_gsphere w) (_ug w) r (_mesh w).
Definition with_mesh (w : WaveFunction) (m : option Mesh3D) : WaveFunction :=
  mkWave (nspinor w) (spin w) (band w) (_gsphere w) (_ug w) (_ur w) m.

(** *** Properties of the base class *)

Definition gsphere (w : WaveFunction) : GSphere := _gsphere w.
Definition npw (w : WaveFunction) : nat := gsphere_len (gsphere w).
Definition ug (w : WaveFunction) : ndarray C := _ug w.

(** [self.shape], the pair [(nspinor, npw)] *)
Definition wave_shape (w : WaveFunction) : list Z := [nspinor w; Z.of_nat (npw w)].

(** [a.shape] as the tuple of Python integers it is *)
Definition shape_tuple {A : Type} (a : ndarray A) : list Z := map Z.of_nat (shape a).

Definition tuple_eqb (a b : list Z) : bool :=
  if list_eq_dec Z.eq_dec a b then true else false.

(** [self.mesh]: reads the attribute [_mesh] *)
Definition mesh : M WaveFunction Mesh3D :=
  fun self =>
    match _mesh self with
    | Some m => (Ok m, self)
    | None => (Raise (AttributeError "_mesh"), self)
    end.

(** [delete_ur]: [del self._ur], ignoring the AttributeError of an absent cache *)
Definition delete_ur : M WaveFunction unit :=
  fun self => (Ok tt, with_ur self None).

(** An assignment to an attribute of a built-in type, as [set._ug = ug] is:
    [set] is Python's built-in set type, nothing in the module rebinds the
    name, and the interpreter refuses the assignment with a TypeError (the
    text of the message is the one of CPython 2.7). *)
Definition setattr_builtin (ty attr : string) : result unit :=
  Raise (TypeError ("can't set attributes of built-in/extension type '" ++ ty ++ "'")).

(** [set_ug(self, ug)] *)
Definition set_ug (u : ndarray C) : M WaveFunction unit :=
  sh <~ read wave_shape ;;
  _ <~ lift (assert (tuple_eqb (shape_tuple u) sh)) ;;
  _ <~ lift (setattr_builtin "set" "_ug") ;;
  delete_ur.

(** [set_mesh(self, mesh)]; the [isinstance] assertion holds by typing. *)
Definition set_mesh (m : Mesh3D) : M WaveFunction unit :=
  fun self => delete_ur (with_mesh self (Some m)).

(** [_fft_ug(self)] *)
Definition _fft_ug : M WaveFunction (ndarray C) :=
  m <~ mesh ;;
  g <~ read gsphere ;;
  u <~ read ug ;;
  let ug_mesh := tofftmesh g m u in
  m' <~ mesh ;;
  ret (fft_g2r m' ug_mesh).

(** [self.ur]: the cached array, computed and stored on the first access *)
Definition ur : M WaveFunction (ndarray C) :=
  fun self =>
    match _ur self with
    | Some r => (Ok r, self)
    | None => (r <~ _fft_ug ;; fun self' => (Ok r, with_ur self' (Some r))) self
    end.

(** [self.ur2]: [(ur.conj() * ur).real.copy()] *)
Definition ur2 : M WaveFunction (ndarray R) :=
  a <~ ur ;;
  b <~ ur ;;
  ret (mk_ndarray (shape a)
         (map (fun p => Re (Cmul (Cconj (fst p)) (snd p))) (combine (data a) (data b)))).

(** [__eq__(self, other)]; [other = None] is Python's [None]. *)
Definition __eq__ (self : WaveFunction) (other : option WaveFunction) : result bool :=
  match other with
  | None => Ok false
  | Some o =>
      if gsphere_ne (gsphere self) (gsphere o) then Ok false
      else allclose (ug self) (ug o)
  end.

Definition __ne__ (self : WaveFunction) (other : option WaveFunction) : result bool :=
  b <- __eq__ self other ;; Ok (negb b).

(** *** PWWaveFunction *)

(** [PWWaveFunction.__init__] *)
Definition PWWaveFunction (nspinor spin band : Z) (gsphere : GSphere) (ug : ndarray C)
  : result WaveFunction :=
  _ <- assert (ndim ug =? 2) ;;
  _ <- assert (Z.eqb (nth 0 (shape_tuple ug) 0%Z) nspinor) ;;
  _ <- assert (nth 1 (shape ug) 0 =? gsphere_npw gsphere) ;;
  Ok (mkWave nspinor spin band gsphere (np_array ug) None None).

(** [norm2(self, space="g")] *)
Definition norm2 (space : string) : M WaveFunction R :=
  let space := lower space in
  if String.eqb space "g" then
    u <~ read ug ;;
    v <~ lift (vdot u u) ;;
    ret (Re v)
  else if String.eqb space "r" then
    m <~ mesh ;;
    d <~ ur2 ;;
    ret (Re (integrate m d))
  else raise (ValueError ("Wrong space: " ++ space)).

(** The right-hand operand of [braket]: the object [self] itself, or another
    object.  The two cases differ, because reading [ur] fills a cache. *)
Inductive operand : Type :=
| Self
| Other (o : WaveFunction).

(** The right-hand operand as an object. *)
Definition operand_obj (w : WaveFunction) (o : operand) : WaveFunction :=
  match o with
  | Self => w
  | Other x => x
  end.

(** A method of [self] run on [self], or on the right-hand operand. *)
Definition on_self {A : Type} (m : M WaveFunction A) : M (WaveFunction * operand) A :=
  fun s =>
    let (r, self') := m (fst s) in (r, (self', snd s)).

Definition on_other {A : Type} (m : M WaveFunction A) : M (WaveFunction * operand) A :=
  fun s =>
    match snd s with
    | Self => let (r, self') := m (fst s) in (r, (self', Self))
    | Other o => let (r, o') := m o in (r, (fst s, Other o'))
    end.

(** [braket(self, other, space="g")] *)
Definition braket (space : string) : M (WaveFunction * operand) C :=
  let space := lower space in
  if String.eqb space "g" then
    g1 <~ on_self (read gsphere) ;;
    m1 <~ on_self mesh ;;
    u1 <~ on_self (read ug) ;;
    let ug1_mesh := tofftmesh g1 m1 u1 in
    g2 <~ on_other (read gsphere) ;;
    m2 <~ on_self mesh ;;
    u2 <~ on_other (read ug) ;;
    let ug2_mesh := tofftmesh g2 m2 u2 in
    lift (vdot ug1_mesh ug2_mesh)
  else if String.eqb space "gsphere" then
    u1 <~ on_self (read ug) ;;
    u2 <~ on_other (read ug) ;;
    lift (vdot u1 u2)
  else if String.eqb space "r" then
    r1 <~ on_self ur ;;
    r2 <~ on_other ur ;;
    v <~ lift (vdot r1 r2) ;;
    m <~ on_self mesh ;;
    ret (Cmul v (RtoC (dv m)))
  else raise (ValueError ("Wrong space: " ++ space)).

(** The phase [np.exp(-2j * np.pi * np.dot(g + k, tau))] *)
Definition phase (g : vec3 Z) (k : vec3 R) (t : vec3 R) : C :=
  Cexp (Cmul (Cmul (mkC 0 (-2)) (RtoC PI)) (RtoC (dot3 (vadd_ZR g k) t))).

(** [dst[:, ig] = src[:, ig] * z] for two arrays of one shape *)
Definition scale_col (src dst : ndarray C) (ig : nat) (z : C) : result (ndarray C) :=
  cells <- col_cells (shape src) ig ;;
  Ok (mk_ndarray (shape dst)
        (fold_left (fun d k => upd d k (Cmul (nth k (data src) C0) z)) cells (data dst))).

(** [rotate(self, symmop)]; [self.__class__] is [PWWaveFunction], the only
    class of wavefunctions the module defines. *)
Definition rotate (self : WaveFunction) (symmop : SymmOp) : result WaveFunction :=
  if negb (nspinor self =? 1)%Z then
    Raise (ValueError "Spinor rotation not available yet.")
  else
    let rot_gsphere := gsphere_rotate (gsphere self) symmop in
    rot_ug <-
      (if negb (allclose3 (tau symmop) zeros3) then
         let rot_ug := empty_like junk (ug self) in
         let rot_gvecs := gvecs rot_gsphere in
         let rot_kpt := frac_coords (kpoint rot_gsphere) in
         let ug := _ug self in
         for_each (range (npw self))
           (fun ig rot_ug =>
              match nth_error rot_gvecs ig with
              | Some g => scale_col ug rot_ug ig (phase g rot_kpt (tau symmop))
              | None => Raise IndexError
              end)
           rot_ug
       else Ok (copy (ug self))) ;;
    let rot_spin := spin self in
    let rot_spin :=
      if (nspinor self =? 1)%Z then
        (if is_fm symmop then spin self else ((spin self + 1) mod 2)%Z)
      else rot_spin in
    PWWaveFunction (nspinor self) rot_spin (band self) rot_gsphere rot_ug.

(** The state the constructor establishes: the coefficient array is an array,
    and its shape is [(nspinor, npw)]. *)
Definition valid (w : WaveFunction) : Prop :=
  nd_wf (_ug w) /\ shape_tuple (_ug w) = wave_shape w.

End PWWave.

(** ** Vocabulary of the statements *)

Definition Rsum (l : list R) : R := fold_right Rplus 0%R l.

(** The cell [u[isp, ig]] of a two-dimensional array. *)
Definition coeff (u : ndarray C) (isp ig : nat) : C :=
  nth (isp * nth 1 (shape u) 0 + ig) (data u) C0.

(** The sum, over the spinor components and the G-vectors, of the squared
    magnitudes of the coefficients. *)
Definition sum_sq_magnitudes (u : ndarray C) : R :=
  Rsum (map (fun isp =>
               Rsum (map (fun ig => Cnorm2 (coeff u isp ig)) (seq 0 (nth 1 (shape u) 0))))
            (seq 0 (nth 0 (shape u) 0))).

(** [exp(-2*pi*i * x)] written with Euler's formula *)
Definition unit_phase (x : R) : C := mkC (cos (2 * PI * x)) (- sin (2 * PI * x)).

(** The exception that rejects a space selector, and a call that raises it. *)
Definition wrong_space (e : exn) : Prop :=
  exists s : string, e = ValueError ("Wrong space: " ++ s).

Definition invalid_mode {A : Type} (r : result A) : Prop :=
  match r with
  | Ok _ => False
  | Raise e => wrong_space e
  end.

(** The identity operation: identity rotation, no translation, ferromagnetic. *)
Definition identity_op : SymmOp :=
  mkSymmOp (mkVec3 (mkVec3 1 0 0) (mkVec3 0 1 0) (mkVec3 0 0 1))%Z zeros3 true.

Section Statements.

Context {collab : Collaborators}.

(** The spin channel [rotate] gives to the wavefunction it returns. *)
Definition rotated_spin (w : WaveFunction) (s : SymmOp) : Z :=
  if is_fm s then spin w else ((spin w + 1) mod 2)%Z.

(** Some component of the translation exceeds 1e-8 in absolute value. *)
Definition exceeds_tolerance (t : vec3 R) : Prop :=
  (1e-8 < Rabs (v1 t) \/ 1e-8 < Rabs (v2 t) \/ 1e-8 < Rabs (v3 t))%R.

(** [rotate] returns a wavefunction that stands on the sphere
    [self.gsphere.rotate(symmop)] gives, and whose coefficients are those of
    [w], each multiplied by the phase of its own vector of that sphere, with
    the k-point of that sphere. *)
Definition rotates_with_phases (w : WaveFunction) (s : SymmOp) : Prop :=
  let rot_gsphere := gsphere_rotate (gsphere w) s in
  exists w', rotate w s = Ok w' /\
    gsphere w' = rot_gsphere /\
    forall isp ig, (Z.of_nat isp < nspinor w)%Z -> ig < npw w ->
      coeff (ug w') isp ig =
      Cmul (coeff (ug w) isp ig)
           (unit_phase (dot3 (vadd_ZR (nth ig (gvecs rot_gsphere) (mkVec3 0 0 0)%Z)
                                      (frac_coords (kpoint rot_gsphere)))
                             (tau s))).

End Statements.

(** ** Sample collaborators and objects *)

Module Sample.

Definition rot_vec_Z (m : vec3 (vec3 Z)) (g : vec3 Z) : vec3 Z :=
  let row r := (v1 r * v1 g + v2 r * v2 g + v3 r * v3 g)%Z in
  mkVec3 (row (v1 m)) (row (v2 m)) (row (v3 m)).

Definition rot_vec_R (m : vec3 (vec3 Z)) (k : vec3 R) : vec3 R :=
  let row r := (IZR (v1 r) * v1 k + IZR (v2 r) * v2 k + IZR (v3 r) * v3 k)%R in
  mkVec3 (row (v1 m)) (row (v2 m)) (row (v3 m)).

(** A sphere that rotates by applying the integer matrix to every G-vector
    and to the k-point. *)
Definition matrix_rotate (g : GSphere) (s : SymmOp) : GSphere :=
  mkGSphere (ecut g)
            (mkKpoint (rot_vec_R (rot_g s) (frac_coords (kpoint g))))
            (map (rot_vec_Z (rot_g s)) (gvecs g)).

(** A one-cell mesh whose transforms leave the array as it is. *)
#[export] Instance demo : Collaborators := {|
  Mesh3D := unit;
  gsphere_rotate := matrix_rotate;
  gsphere_rotate_len := fun g s => length_map (rot_vec_Z (rot_g s)) (gvecs g);
  tofftmesh := fun _ _ u => u;
  fft_g2r := fun _ u => u;
  integrate := fun _ d => RtoC (Rsum (data d));
  dv := fun _ => 1%R;
  junk := fun _ => C0
|}.

Definition imat : vec3 (vec3 Z) := rot_g identity_op.

(** Two G-vectors at the Gamma point. *)
Definition g0 : GSphere :=
  mkGSphere 1 (mkKpoint zeros3) [mkVec3 0 0 0; mkVec3 1 0 0]%Z.

(** Coefficients [[1, 2j]], of shape (1, 2). *)
Definition u0 : ndarray C := mk_ndarray [1; 2] [mkC 1 0; mkC 0 2].

(** Another array of shape (1, 2), and one of shape (1, 3). *)
Definition u1 : ndarray C := mk_ndarray [1; 2] [mkC 3 0; mkC 0 1].
Definition u_bad : ndarray C := mk_ndarray [1; 3] [C1; C1; C1].

(** The wavefunction [PWWaveFunction(1, 0, 0, g0, u0)], without and with a
    mesh and a cached [ur]. *)
Definition w0 : WaveFunction := mkWave 1 0 0 g0 u0 None None.
Definition w0_cached : WaveFunction := mkWave 1 0 0 g0 u0 (Some u0) (Some tt).

(** A two-spinor wavefunction on the same sphere. *)
Definition w_spinor : WaveFunction :=
  mkWave 2 0 0 g0 (mk_ndarray [2; 2] [C1; C0; C0; C1]) None None.

(** Operations: a translation by a quarter along the first axis, ferromagnetic
    and not, and a translation below numpy's absolute tolerance. *)
Definition op_quarter : SymmOp := mkSymmOp imat (mkVec3 (1/4) 0 0)%R true.
Definition op_afm : SymmOp := mkSymmOp imat (mkVec3 (1/4) 0 0)%R false.
Definition op_tiny : SymmOp := mkSymmOp imat (mkVec3 1e-9 0 0)%R true.

End Sample.

(** ** The life of a wavefunction object *)

Section Life.

Context {collab : Collaborators}.

(** What [_fft_ug] computes on the mesh [m]. *)
Definition transform (w : WaveFunction) (m : Mesh3D) : ndarray C :=
  fft_g2r m (tofftmesh (gsphere w) m (ug w)).

(** A cached [ur] is the transform of the coefficients on the mesh in place. *)
Definition coherent (w : WaveFunction) : Prop :=
  match _ur w with
  | None => True
  | Some r => exists m, _mesh w = Some m /\ r = transform w m
  end.

(** The method calls an object can receive; [call_braket_of space lhs] is the
    call [lhs.braket(self, space)], in which the object is the right-hand
    operand. *)
Inductive call : Type :=
| call_set_ug (u : ndarray C)
| call_set_mesh (m : Mesh3D)
| call_delete_ur
| call_ur
| call_ur2
| call_norm2 (space : string)
| call_braket (space : string) (other : operand)
| call_braket_of (space : string) (lhs : WaveFunction).

(** The state of the object after a call, whether it returned or raised. *)
Definition after (c : call) (w : WaveFunction) : WaveFunction :=
  match c with
  | call_set_ug u => snd (set_ug u w)
  | call_set_mesh m => snd (set_mesh m w)
  | call_delete_ur => snd (delete_ur w)
  | call_ur => snd (ur w)
  | call_ur2 => snd (ur2 w)
  | call_norm2 space => snd (norm2 space w)
  | call_braket space o => fst (snd (braket space (w, o)))
  | call_braket_of space lhs =>
      match snd (snd (braket space (lhs, Other w))) with
      | Other w' => w'
      | Self => w
      end
  end.

Definition after_all (cs : list call) (w : WaveFunction) : WaveFunction :=
  fold_left (fun w c => after c w) cs w.

(** The indices, the sphere and the coefficients of two objects agree. *)
Definition same_wave (w w' : WaveFunction) : Prop :=
  nspinor w' = nspinor w /\ spin w' = spin w /\ band w' = band w /\
  _gsphere w' = _gsphere w /\ _ug w' = _ug w.

End Life.

(** ** [export_ur2]: the file name, the file system and the writers *)

(** [c in s] for a one-character string [c] *)
Fixpoint contains_char (c : ascii) (s : string) : bool :=
  match s with
  | EmptyString => false
  | String x s' => Ascii.eqb x c || contains_char c s'
  end.

(** The characters [str.strip()] removes: tab, line feed, vertical tab, form
    feed, carriage return and space. *)
Definition is_space (c : ascii) : bool :=
  let n := nat_of_ascii c in
  ((9 <=? n) && (n <=? 13)) || (n =? 32).

Fixpoint lstrip (s : string) : string :=
  match s with
  | EmptyString => EmptyString
  | String c s' => if is_space c then lstrip s' else s
  end.

Fixpoint rstrip (s : string) : string :=
  match s with
  | EmptyString => EmptyString
  | String c s' =>
      match rstrip s' with
      | EmptyString => if is_space c then EmptyString else String c EmptyString
      | t => String c t
      end
  end.

(** [s.strip()] *)
Definition strip (s : string) : string := rstrip (lstrip s).

(** [s.split(c)] for a one-character separator: never an empty list. *)
Fixpoint split (c : ascii) (s : string) : list string :=
  match s with
  | EmptyString => [EmptyString]
  | String x s' =>
      if Ascii.eqb x c then EmptyString :: split c s'
      else match split c s' with
           | t :: ts => String x t :: ts
           | [] => [String x EmptyString]
           end
  end.

(** The extension [export_ur2] reads off a file name: [tokens[-1]] for
    [tokens = filename.strip().split(".")]. *)
Definition extension_of (filename : string) : string :=
  last (split "." (strip filename)) EmptyString.

(** [a.conj() * a], real part: the squared modulus of every cell. *)
Definition squared_modulus (a : ndarray C) : ndarray R :=
  mk_ndarray (shape a) (map Cnorm2 (data a)).

(** The exceptions of [export_ur2]: those of the wavefunction, and two more. *)
Inductive export_exn : Type :=
| Py (e : exn)
| NotImplementedError (msg : string)
| IOError (path : string).

Inductive outcome (A : Type) : Type :=
| Returned (a : A)
| Raised (e : export_exn).

Arguments Returned {A} a.
Arguments Raised {A} e.

Definition of_result {A : Type} (r : result A) : outcome A :=
  match r with
  | Ok a => Returned a
  | Raise e => Raised (Py e)
  end.

(** [np.reshape(a, sh)] *)
Definition reshape {A : Type} (a : ndarray A) (sh : list nat) : result (ndarray A) :=
  if length (data a) =? size_of sh then Ok (mk_ndarray sh (data a))
  else Raise (ValueError "cannot reshape array").

Section ExportModel.

Context {collab : Collaborators}.

(** The crystal structure and the visualizer are opaque to the wavefunction;
    of the file system the model keeps the name [mkstemp] gives to a
    temporary file, and whether a file can be opened for writing.  The two
    writers of [abipy.iotools.xsf] are taken to return; what they are given
    is recorded. *)
Variable Structure : Type.
Variable Visualizer : Type.
Variable mkstemp : string -> string.
Variable can_open : string -> bool.
Variable from_file : string -> outcome Visualizer.

(** What the call does to the world, in the order it does it.  [EvMkstemp]
    is [tempfile.mkstemp]: it creates the file and returns an open
    descriptor with the name, of which the code keeps the name ([[1]]) and
    drops the descriptor.  [EvOpen] and [EvClose] are the file object of the
    [with] block. *)
Inductive event : Type :=
| EvMkstemp (suffix path : string)
| EvPrint (msg : string)
| EvOpen (path : string)
| EvWriteStructure (path : string) (s : Structure)
| EvWriteData (path : string) (s : Structure) (d : ndarray R) (add_replicas : bool)
| EvClose (path : string).

(** [export_ur2(self, filename, structure)]: the outcome, the object after the
    call and the events of the call. *)
Definition export_ur2 (filename : string) (structure : Structure) (self : WaveFunction)
  : outcome Visualizer * WaveFunction * list event :=
  if negb (contains_char "." filename) then
    (Raised (Py (ValueError ("Cannot detect file extension in: " ++ filename))), self, [])
  else
    let tokens := split "." (strip filename) in
    let ext := extension_of filename in
    let '(filename, ev) :=
      if String.eqb (hd EmptyString tokens) EmptyString then
        let path := mkstemp ("." ++ ext) in
        (path, [EvMkstemp ("." ++ ext) path; EvPrint ("Creating temporary file: " ++ path)])
      else (filename, []) in
    match ur2 self with
    | (Raise e, self1) => (Raised (Py e), self1, ev)
    | (Ok a, self1) =>
        match ur2 self1 with
        | (Raise e, self2) => (Raised (Py e), self2, ev)
        | (Ok b, self2) =>
            match reshape a (1 :: shape b) with
            | Raise e => (Raised (Py e), self2, ev)
            | Ok ur2 =>
                if can_open filename then
                  if String.eqb ext "xsf" then
                    (from_file filename, self2,
                     ev ++ [EvOpen filename;
                            EvWriteStructure filename structure;
                            EvWriteData filename structure ur2 true;
                            EvClose filename])
                  else
                    (Raised (NotImplementedError
                               ("extension " ++ ext ++ " is not supported.")),
                     self2, ev ++ [EvOpen filename; EvClose filename])
                else (Raised (IOError filename), self2, ev)
            end
        end
    end.

End ExportModel.

Arguments EvMkstemp {Structure} suffix path.
Arguments EvPrint {Structure} msg.
Arguments EvOpen {Structure} path.
Arguments EvWriteStructure {Structure} path s.
Arguments EvWriteData {Structure} path s d add_replicas.
Arguments EvClose {Structure} path.

(** The file name starts a temporary file: [not tokens[0]]. *)
Definition uses_temp (filename : string) : bool :=
  String.eqb (hd EmptyString (split "." (strip filename))) EmptyString.

(** The file [export_ur2] writes to, and what creating it leaves behind. *)
Definition export_target (mkstemp : string -> string) (filename : string) : string :=
  if uses_temp filename then mkstemp ("." ++ extension_of filename)%string
  else filename.

Definition temp_events {Structure : Type} (mkstemp : string -> string)
  (filename : string) : list (event Structure) :=
  if uses_temp filename then
    [EvMkstemp ("." ++ extension_of filename)%string (export_target mkstemp filename);
     EvPrint ("Creating temporary file: " ++ export_target mkstemp filename)%string]
  else [].




(** ** More sample objects *)

Module Sample2.

Import Sample.

(** The sample wavefunction once a mesh is set, before [ur] is read. *)
Definition w0_mesh : WaveFunction := mkWave 1 0 0 g0 u0 None (Some tt).

(** A second wavefunction on the sample sphere, and one on another sphere. *)
Definition w1 : WaveFunction := mkWave 1 1 3 g0 u1 None None.
Definition g_other : GSphere :=
  mkGSphere 1 (mkKpoint zeros3) [mkVec3 0 0 0; mkVec3 0 1 0]%Z.
Definition w_other : WaveFunction := mkWave 1 0 0 g_other u0 None None.

(** A file system in which every file can be opened, temporary files are
    named after their suffix, and the visualizer is the name of the file. *)
Definition demo_mkstemp (suffix : string) : string := "/tmp/tmpwave" ++ suffix.
Definition demo_can_open (path : string) : bool := true.
Definition demo_from_file (path : string) : outcome string := Returned path.

Definition demo_export (filename : string) (w : WaveFunction)
  : outcome string * WaveFunction * list (event unit) :=
  export_ur2 demo_mkstemp demo_can_open demo_from_file filename tt w.

(** A sequence of calls on one object. *)
Definition sample_calls : list call :=
  [call_ur; call_set_mesh tt; call_norm2 "R"; call_delete_ur;
   call_braket "r" Self; call_set_ug u1].

End Sample2.

(** * Properties *)

Unset Implicit Arguments.

(** ** Strings and tuples *)

Lemma lower_ascii_idempotent (c : ascii) : lower_ascii (lower_ascii c) = lower_ascii c.
Proof. destruct c as [[] [] [] [] [] [] [] []]; reflexivity. Qed.

Lemma lower_idempotent (s : string) : lower (lower s) = lower s.
Proof.
  induction s as [|c s IH]; simpl.
  - reflexivity.
  - now rewrite lower_ascii_idempotent, IH.
Qed.

Lemma tuple_eqb_eq (a b : list Z) : tuple_eqb a b = true <-> a = b.
Proof.
  unfold tuple_eqb. destruct (list_eq_dec Z.eq_dec a b); split; congruence.
Qed.

Lemma tuple_eqb_neq (a b : list Z) : tuple_eqb a b = false <-> a <> b.
Proof.
  unfold tuple_eqb. destruct (list_eq_dec Z.eq_dec a b); split; congruence.
Qed.

Section ModeDispatch.

Context {collab : Collaborators}.

Lemma norm2_lower (s : string) (w : WaveFunction) : norm2 s w = norm2 (lower s) w.
Proof. unfold norm2. now rewrite lower_idempotent. Qed.

Lemma braket_lower (s : string) (st : WaveFunction * operand) :
  braket s st = braket (lower s) st.
Proof. unfold braket. now rewrite lower_idempotent. Qed.

Lemma norm2_wrong_space (s : string) (w : WaveFunction) :
  ~ In (lower s) ["g"; "r"]%string ->
  norm2 s w = (Raise (ValueError ("Wrong space: " ++ lower s)), w).
Proof.
  intros H. unfold norm2.
  destruct (String.eqb_spec (lower s) "g") as [E|_].
  { exfalso. apply H. rewrite E. simpl. auto. }
  destruct (String.eqb_spec (lower s) "r") as [E|_].
  { exfalso. apply H. rewrite E. simpl. auto. }
  reflexivity.
Qed.

Lemma braket_wrong_space (s : string) (st : WaveFunction * operand) :
  ~ In (lower s) ["g"; "gsphere"; "r"]%string ->
  braket s st = (Raise (ValueError ("Wrong space: " ++ lower s)), st).
Proof.
  intros H. unfold braket.
  destruct (String.eqb_spec (lower s) "g") as [E|_].
  { exfalso. apply H. rewrite E. simpl. auto. }
  destruct (String.eqb_spec (lower s) "gsphere") as [E|_].
  { exfalso. apply H. rewrite E. simpl. auto. }
  destruct (String.eqb_spec (lower s) "r") as [E|_].
  { exfalso. apply H. rewrite E. simpl. auto. }
  reflexivity.
Qed.

(** The exceptions of a recognised selector are never the rejection of the
    selector. *)
Ltac not_rejected :=
  simpl;
  first [ exact (fun f : False => f)
        | let s := fresh "s" in let E := fresh "E" in
          intros [s E]; simpl in E; discriminate E ].

Lemma fft_ug_eq (w : WaveFunction) :
  _fft_ug w =
  match _mesh w with
  | Some m => (Ok (fft_g2r m (tofftmesh (gsphere w) m (ug w))), w)
  | None => (Raise (AttributeError "_mesh"), w)
  end.
Proof.
  unfold _fft_ug, bindM, mesh, read, ret. cbv beta.
  destruct (_mesh w) eqn:E; simpl; rewrite ?E; reflexivity.
Qed.

Lemma ur_eq (w : WaveFunction) :
  ur w =
  match _ur w with
  | Some r => (Ok r, w)
  | None =>
      match _mesh w with
      | Some m =>
          let r := fft_g2r m (tofftmesh (gsphere w) m (ug w)) in
          (Ok r, with_ur w (Some r))
      | None => (Raise (AttributeError "_mesh"), w)
      end
  end.
Proof.
  unfold ur. destruct (_ur w); [reflexivity|].
  unfold bindM. rewrite fft_ug_eq. destruct (_mesh w); reflexivity.
Qed.

Lemma ur_not_rejected (w : WaveFunction) : ~ invalid_mode (fst (ur w)).
Proof.
  rewrite ur_eq. destruct (_ur w); [not_rejected|].
  destruct (_mesh w); not_rejected.
Qed.

Lemma vdot_not_rejected (a b : ndarray C) : ~ invalid_mode (vdot a b).
Proof.
  unfold vdot. destruct (length (data a) =? length (data b)); not_rejected.
Qed.

Lemma on_self_eq {A : Type} (m : M WaveFunction A) (w : WaveFunction) (o : operand) :
  on_self m (w, o) = (fst (m w), (snd (m w), o)).
Proof. unfold on_self. simpl. destruct (m w); reflexivity. Qed.

Lemma on_other_eq {A : Type} (m : M WaveFunction A) (w : WaveFunction) (o : operand) :
  on_other m (w, o) =
  match o with
  | Self => (fst (m w), (snd (m w), Self))
  | Other x => (fst (m x), (w, Other (snd (m x))))
  end.
Proof. unfold on_other. simpl. destruct o; [destruct (m w)|destruct (m o)]; reflexivity. Qed.

Lemma bindM_eq {S A B : Type} (m : M S A) (k : A -> M S B) (s : S) :
  bindM m k s =
  match fst (m s) with
  | Ok a => k a (snd (m s))
  | Raise e => (Raise e, snd (m s))
  end.
Proof. unfold bindM. destruct (m s) as [[a|e] s']; reflexivity. Qed.

Lemma on_self_read {A : Type} (f : WaveFunction -> A) (w : WaveFunction) (o : operand) :
  on_self (read f) (w, o) = (Ok (f w), (w, o)).
Proof. reflexivity. Qed.

Lemma on_other_read {A : Type} (f : WaveFunction -> A) (w : WaveFunction) (o : operand) :
  on_other (read f) (w, o) = (Ok (f (operand_obj w o)), (w, o)).
Proof. destruct o; reflexivity. Qed.

Lemma on_self_mesh (w : WaveFunction) (o : operand) :
  on_self mesh (w, o) =
  (match _mesh w with Some m => Ok m | None => Raise (AttributeError "_mesh") end, (w, o)).
Proof. unfold on_self, mesh. simpl. destruct (_mesh w); reflexivity. Qed.

Lemma norm2_g (s : string) (w : WaveFunction) :
  lower s = "g"%string ->
  norm2 s w = (v <- vdot (ug w) (ug w) ;; Ok (Re v), w).
Proof.
  intros E. unfold norm2. rewrite E. unfold bind, bindM, read, lift, ret. simpl.
  destruct (vdot (ug w) (ug w)); reflexivity.
Qed.

Lemma norm2_r (s : string) (w : WaveFunction) :
  lower s = "r"%string ->
  norm2 s w =
  match _mesh w with
  | None => (Raise (AttributeError "_mesh"), w)
  | Some m =>
      match ur2 w with
      | (Ok d, w') => (Ok (Re (integrate m d)), w')
      | (Raise e, w') => (Raise e, w')
      end
  end.
Proof.
  intros E. unfold norm2. rewrite E.
  change (("r" =? "g")%string) with false. change (("r" =? "r")%string) with true.
  cbv iota. unfold bindM, mesh, ret.
  destruct (_mesh w); [|reflexivity].
  destruct (ur2 w) as [[d|e] w']; reflexivity.
Qed.

Lemma braket_gsphere (s : string) (w : WaveFunction) (o : operand) :
  lower s = "gsphere"%string ->
  braket s (w, o) = (vdot (ug w) (ug (operand_obj w o)), (w, o)).
Proof.
  intros E. unfold braket. rewrite E.
  change (("gsphere" =? "g")%string) with false.
  change (("gsphere" =? "gsphere")%string) with true.
  cbv iota.
  rewrite bindM_eq, on_self_read. cbn [fst snd].
  rewrite bindM_eq, on_other_read. cbn [fst snd].
  reflexivity.
Qed.

Lemma braket_g (s : string) (w : WaveFunction) (o : operand) :
  lower s = "g"%string ->
  braket s (w, o) =
  match _mesh w with
  | None => (Raise (AttributeError "_mesh"), (w, o))
  | Some m =>
      (vdot (tofftmesh (gsphere w) m (ug w))
            (tofftmesh (gsphere (operand_obj w o)) m (ug (operand_obj w o))), (w, o))
  end.
Proof.
  intros E. unfold braket. rewrite E.
  change (("g" =? "g")%string) with true.
  cbv iota.
  rewrite bindM_eq, on_self_read. cbn [fst snd].
  rewrite bindM_eq, on_self_mesh. cbn [fst snd].
  destruct (_mesh w) eqn:Em; [|reflexivity].
  rewrite bindM_eq, on_self_read. cbn [fst snd].
  rewrite bindM_eq, on_other_read. cbn [fst snd].
  rewrite bindM_eq, on_self_mesh, Em. cbn [fst snd].
  rewrite bindM_eq, on_other_read. cbn [fst snd].
  reflexivity.
Qed.

Lemma braket_r (s : string) (w : WaveFunction) (o : operand) :
  lower s = "r"%string ->
  braket s (w, o) =
  (r1 <~ on_self ur ;;
   r2 <~ on_other ur ;;
   v <~ lift (vdot r1 r2) ;;
   m <~ on_self mesh ;;
   ret (Cmul v (RtoC (dv m)))) (w, o).
Proof. intros E. unfold braket. rewrite E. reflexivity. Qed.

Lemma norm2_recognised (s : string) (w : WaveFunction) :
  In (lower s) ["g"; "r"]%string -> ~ invalid_mode (fst (norm2 s w)).
Proof.
  intros [E|[E|[]]]; symmetry in E.
  - rewrite (norm2_g _ _ E). simpl.
    pose proof (vdot_not_rejected (ug w) (ug w)) as H.
    destruct (vdot (ug w) (ug w)); [not_rejected|exact H].
  - rewrite (norm2_r _ _ E).
    destruct (_mesh w) as [m|]; [|not_rejected].
    unfold ur2, bindM.
    pose proof (ur_not_rejected w) as H1.
    destruct (ur w) as [[r1|e1] w1]; [|exact H1].
    pose proof (ur_not_rejected w1) as H2.
    destruct (ur w1) as [[r2|e2] w2]; [|exact H2].
    unfold ret. not_rejected.
Qed.

Lemma braket_recognised (s : string) (st : WaveFunction * operand) :
  In (lower s) ["g"; "gsphere"; "r"]%string -> ~ invalid_mode (fst (braket s st)).
Proof.
  destruct st as [w o].
  intros [E|[E|[E|[]]]]; symmetry in E.
  - rewrite (braket_g _ _ _ E).
    destruct (_mesh w) as [m|]; [|not_rejected].
    apply vdot_not_rejected.
  - rewrite (braket_gsphere _ _ _ E). apply vdot_not_rejected.
  - rewrite (braket_r _ _ _ E).
    unfold bindM. rewrite on_self_eq.
    pose proof (ur_not_rejected w) as H1.
    destruct (ur w) as [[r1|e1] w1]; simpl in *; [|exact H1].
    rewrite on_other_eq.
    destruct o as [|x].
    + pose proof (ur_not_rejected w1) as H2.
      destruct (ur w1) as [[r2|e2] w2]; simpl in *; [|exact H2].
      pose proof (vdot_not_rejected r1 r2) as H3.
      unfold lift. destruct (vdot r1 r2); simpl in *; [|exact H3].
      rewrite on_self_eq. unfold mesh. destruct (_mesh w2); simpl; not_rejected.
    + pose proof (ur_not_rejected x) as H2.
      destruct (ur x) as [[r2|e2] x2]; simpl in *; [|exact H2].
      pose proof (vdot_not_rejected r1 r2) as H3.
      unfold lift. destruct (vdot r1 r2); simpl in *; [|exact H3].
      rewrite on_self_eq. unfold mesh. destruct (_mesh w1); simpl; not_rejected.
Qed.

End ModeDispatch.

(** ** Real and complex arithmetic *)

Lemma Rleb_le (x y : R) : Rleb x y = true <-> (x <= y)%R.
Proof. unfold Rleb. destruct (Rle_dec x y); split; intros; congruence. Qed.

Lemma isclose_R_zero (a : R) : isclose_R a 0 = true <-> (Rabs a <= atol)%R.
Proof.
  unfold isclose_R. rewrite Rleb_le, Rabs_R0, Rminus_0_r.
  unfold atol, rtol. split; intros; lra.
Qed.

Lemma allclose3_zeros (t : vec3 R) :
  allclose3 t zeros3 = true <->
  (Rabs (v1 t) <= atol /\ Rabs (v2 t) <= atol /\ Rabs (v3 t) <= atol)%R.
Proof.
  unfold allclose3. simpl. rewrite !andb_true_iff, !isclose_R_zero. tauto.
Qed.

Lemma allclose3_exact_zero : allclose3 zeros3 zeros3 = true.
Proof.
  apply allclose3_zeros. simpl. rewrite Rabs_R0. unfold atol. lra.
Qed.

Lemma C_eq (a b : C) : Re a = Re b -> Im a = Im b -> a = b.
Proof. destruct a, b; simpl; intros -> ->; reflexivity. Qed.

Lemma phase_euler (g : vec3 Z) (k t : vec3 R) :
  phase g k t = unit_phase (dot3 (vadd_ZR g k) t).
Proof.
  unfold phase, unit_phase, Cexp. set (x := dot3 (vadd_ZR g k) t).
  apply C_eq; simpl.
  - replace (0 * PI - -2 * 0)%R with 0%R by ring.
    replace (0 * x - (0 * 0 + -2 * PI) * 0)%R with 0%R by ring.
    replace (0 * 0 + (0 * 0 + -2 * PI) * x)%R with (- (2 * PI * x))%R by ring.
    rewrite exp_0, cos_neg. ring.
  - replace (0 * PI - -2 * 0)%R with 0%R by ring.
    replace (0 * x - (0 * 0 + -2 * PI) * 0)%R with 0%R by ring.
    replace (0 * 0 + (0 * 0 + -2 * PI) * x)%R with (- (2 * PI * x))%R by ring.
    rewrite exp_0, sin_neg. ring.
Qed.

Lemma Cnorm2_unit_phase (c : C) (x : R) : Cnorm2 (Cmul c (unit_phase x)) = Cnorm2 c.
Proof.
  unfold Cnorm2, Cmul, unit_phase. simpl.
  pose proof (sin2_cos2 (2 * PI * x)) as H. unfold Rsqr in H.
  set (sn := sin (2 * PI * x)) in *. set (cs := cos (2 * PI * x)) in *.
  replace ((Re c * cs - Im c * - sn) * (Re c * cs - Im c * - sn) +
           (Re c * - sn + Im c * cs) * (Re c * - sn + Im c * cs))%R
    with ((Re c * Re c + Im c * Im c) * (sn * sn + cs * cs))%R by ring.
  rewrite H. ring.
Qed.

Lemma Cnorm2_nonneg (c : C) : (0 <= Cnorm2 c)%R.
Proof. unfold Cnorm2. nra. Qed.

(** ** Buffers *)

Lemma upd_length {A : Type} (l : list A) (k : nat) (v : A) : length (upd l k v) = length l.
Proof.
  revert k. induction l as [|x l IH]; intros [|k]; simpl; auto.
Qed.

Lemma nth_upd {A : Type} (l : list A) (k i : nat) (v d : A) :
  k < length l ->
  nth i (upd l k v) d = if i =? k then v else nth i l d.
Proof.
  revert k i. induction l as [|x l IH]; intros k i Hk; simpl in Hk; [lia|].
  destruct k as [|k], i as [|i]; simpl; auto.
  apply IH. lia.
Qed.

Lemma col_cells_single_row (n ig : nat) : ig < n -> col_cells [1; n] ig = Ok [ig].
Proof.
  intros H. unfold col_cells. apply Nat.ltb_lt in H. rewrite H. simpl.
  do 2 f_equal. lia.
Qed.

Lemma shape_tuple_inj {A : Type} (u : ndarray A) (l : list nat) :
  shape_tuple u = map Z.of_nat l -> shape u = l.
Proof.
  unfold shape_tuple. generalize (shape u). clear u.
  intros s. revert l. induction s as [|x s IH]; intros [|y l] H; simpl in H;
    try discriminate; auto.
  injection H as H1 H2. apply Nat2Z.inj in H1. f_equal; auto.
Qed.

(** ** The rotation *)

Section Rotation.

Context {collab : Collaborators}.

(** The loop of [rotate] on a one-row array: after the columns [a, a + m)
    the cells of these columns hold the rotated coefficients, the others are
    as before. *)
Lemma rotate_loop (n : nat) (src : list C) (gv : list (vec3 Z)) (k t : vec3 R)
  (gdef : vec3 Z) :
  n <= length gv ->
  forall m a d, a + m = n -> length d = n ->
  exists d',
    for_each (seq a m)
      (fun ig rot_ug =>
         match nth_error gv ig with
         | Some g => scale_col (mk_ndarray [1; n] src) rot_ug ig (phase g k t)
         | None => Raise IndexError
         end)
      (mk_ndarray [1; n] d) = Ok (mk_ndarray [1; n] d') /\
    length d' = n /\
    forall i, nth i d' C0 =
              if (a <=? i) && (i <? a + m)
              then Cmul (nth i src C0) (phase (nth i gv gdef) k t)
              else nth i d C0.
Proof.
  intros Hgv m. induction m as [|m IH]; intros a d Ha Hd.
  - exists d. simpl. repeat split; auto.
    intros i. destruct (a <=? i) eqn:E1; simpl; auto.
    destruct (i <? a + 0) eqn:E2; auto.
    apply Nat.leb_le in E1. apply Nat.ltb_lt in E2. lia.
  - simpl for_each.
    rewrite (nth_error_nth' gv gdef) by lia.
    unfold scale_col at 1. simpl shape.
    rewrite col_cells_single_row by lia. simpl bind. simpl fold_left. simpl data.
    set (v := Cmul (nth a src C0) (phase (nth a gv gdef) k t)).
    destruct (IH (S a) (upd d a v)) as (d' & Hrun & Hlen & Hnth).
    { lia. }
    { now rewrite upd_length. }
    exists d'. split; [exact Hrun|]. split; [exact Hlen|].
    intros i. rewrite Hnth, nth_upd by lia.
    destruct (Nat.eq_dec i a) as [->|Hne].
    + rewrite Nat.eqb_refl.
      replace (S a <=? a) with false by (symmetry; apply Nat.leb_gt; lia).
      replace (a <=? a) with true by (symmetry; apply Nat.leb_le; lia).
      replace (a <? a + S m) with true by (symmetry; apply Nat.ltb_lt; lia).
      reflexivity.
    + replace (i =? a) with false by (symmetry; apply Nat.eqb_neq; exact Hne).
      replace (i <? S a + m) with (i <? a + S m) by (f_equal; lia).
      destruct (i <? a + S m); [|now rewrite !andb_false_r].
      rewrite !andb_true_r.
      destruct (a <=? i) eqn:E1, (S a <=? i) eqn:E2; auto.
      * apply Nat.leb_le in E1. apply Nat.leb_gt in E2. lia.
      * apply Nat.leb_gt in E1. apply Nat.leb_le in E2. lia.
Qed.

(** What the constructor's state says about a single-spinor wavefunction. *)
Lemma valid_single_spinor (w : WaveFunction) :
  valid w -> nspinor w = 1%Z ->
  shape (_ug w) = [1; npw w] /\ length (data (_ug w)) = npw w.
Proof.
  intros [Hwf Hsh] H1.
  assert (Hs : shape (_ug w) = [1; npw w]).
  { apply shape_tuple_inj. rewrite Hsh. unfold wave_shape. rewrite H1. reflexivity. }
  split; [exact Hs|].
  unfold nd_wf in Hwf. rewrite Hwf, Hs. simpl. lia.
Qed.

Lemma constructor_single_row (sp b : Z) (g : GSphere) (d : list C) :
  PWWaveFunction 1 sp b g (mk_ndarray [1; gsphere_npw g] d) =
  Ok (mkWave 1 sp b g (mk_ndarray [1; gsphere_npw g] d) None None).
Proof.
  unfold PWWaveFunction, ndim, shape_tuple. simpl.
  rewrite Nat.eqb_refl. reflexivity.
Qed.

Lemma rotate_with_translation (w : WaveFunction) (s : SymmOp) :
  valid w -> nspinor w = 1%Z ->
  allclose3 (tau s) zeros3 = false ->
  exists d',
    rotate w s =
      Ok (mkWave 1 (rotated_spin w s) (band w) (gsphere_rotate (gsphere w) s)
                 (mk_ndarray [1; npw w] d') None None) /\
    length d' = npw w /\
    forall i, i < npw w ->
      nth i d' C0 =
      Cmul (nth i (data (_ug w)) C0)
           (phase (nth i (gvecs (gsphere_rotate (gsphere w) s)) (mkVec3 0 0 0)%Z)
                  (frac_coords (kpoint (gsphere_rotate (gsphere w) s))) (tau s)).
Proof.
  intros Hv H1 Hclose.
  destruct (valid_single_spinor w Hv H1) as [Hs Hl].
  pose proof (gsphere_rotate_len (gsphere w) s) as Hk.
  fold (npw w) in Hk. unfold gsphere_len in Hk.
  set (rg := gsphere_rotate (gsphere w) s) in *.
  destruct (_ug w) as [sh src] eqn:Eu. simpl in Hs, Hl. subst sh.
  destruct (rotate_loop (npw w) src (gvecs rg)
              (frac_coords (kpoint rg)) (tau s) (mkVec3 0 0 0)%Z
              ltac:(lia) (npw w) 0
              (map junk (seq 0 (length src))) eq_refl)
    as (d' & Hrun & Hlen & Hnth).
  { now rewrite length_map, length_seq. }
  exists d'. split; [|split; [exact Hlen|]].
  - unfold rotate. rewrite H1. simpl negb. cbv iota.
    fold rg. rewrite Hclose. simpl negb. cbv iota.
    unfold empty_like, ug, range. rewrite Eu. cbn [shape data].
    rewrite Hrun. simpl bind.
    replace (npw w) with (gsphere_npw rg) at 1 by exact Hk.
    rewrite constructor_single_row.
    unfold rotated_spin, gsphere_npw. rewrite Hk. reflexivity.
  - intros i Hi. simpl data. rewrite Hnth.
    replace (0 <=? i) with true by (symmetry; apply Nat.leb_le; lia).
    replace (i <? 0 + npw w) with true by (symmetry; apply Nat.ltb_lt; lia).
    reflexivity.
Qed.

Lemma rotate_without_translation (w : WaveFunction) (s : SymmOp) :
  valid w -> nspinor w = 1%Z ->
  allclose3 (tau s) zeros3 = true ->
  rotate w s =
    Ok (mkWave 1 (rotated_spin w s) (band w) (gsphere_rotate (gsphere w) s)
               (_ug w) None None).
Proof.
  intros Hv H1 Hclose.
  destruct (valid_single_spinor w Hv H1) as [Hs Hl].
  pose proof (gsphere_rotate_len (gsphere w) s) as Hk.
  fold (npw w) in Hk. unfold gsphere_len in Hk.
  unfold rotate. rewrite H1. simpl negb. cbv iota.
  rewrite Hclose. simpl negb. cbv iota. simpl bind.
  unfold copy, ug. rewrite Hs.
  rewrite <- Hk at 1. fold (gsphere_npw (gsphere_rotate (gsphere w) s)).
  rewrite constructor_single_row.
  unfold rotated_spin, gsphere_npw. rewrite Hk.
  do 2 f_equal. destruct (_ug w); simpl in *; congruence.
Qed.

End Rotation.

(** ** Sums of squared magnitudes *)

Lemma Rsum_app (l1 l2 : list R) : Rsum (l1 ++ l2) = (Rsum l1 + Rsum l2)%R.
Proof.
  induction l1 as [|x l1 IH]; simpl.
  - ring.
  - rewrite IH. ring.
Qed.

Lemma Rsum_nonneg (l : list R) : (forall x, In x l -> (0 <= x)%R) -> (0 <= Rsum l)%R.
Proof.
  induction l as [|x l IH]; intros H; simpl.
  - lra.
  - assert (0 <= x)%R by (apply H; left; reflexivity).
    assert (0 <= Rsum l)%R by (apply IH; intros y Hy; apply H; right; exact Hy).
    lra.
Qed.

Lemma Rsum_Cnorm2_nonneg (d : list C) : (0 <= Rsum (map Cnorm2 d))%R.
Proof.
  apply Rsum_nonneg. intros x Hx. apply in_map_iff in Hx.
  destruct Hx as (c & <- & _). apply Cnorm2_nonneg.
Qed.

(** Reading the first [c] cells one index at a time. *)
Lemma map_nth_firstn {A : Type} (d : list A) (c : nat) (x0 : A) :
  c <= length d -> map (fun i => nth i d x0) (seq 0 c) = firstn c d.
Proof.
  revert d. induction c as [|c IH]; intros d Hc; [reflexivity|].
  destruct d as [|x d]; simpl in Hc; [lia|].
  cbn [seq firstn map nth]. f_equal.
  rewrite <- seq_shift, map_map. simpl. apply IH. lia.
Qed.

Lemma sum_rows (f : C -> R) (r c : nat) :
  forall d, length d = r * c ->
  Rsum (map (fun isp => Rsum (map (fun ig => f (nth (isp * c + ig) d C0)) (seq 0 c)))
            (seq 0 r)) = Rsum (map f d).
Proof.
  induction r as [|r IH]; intros d Hd.
  - destruct d; [reflexivity|discriminate].
  - cbn [seq map Rsum fold_right].
    rewrite <- seq_shift, map_map.
    replace (Rsum (map f d))
      with (Rsum (map f (firstn c d)) + Rsum (map f (skipn c d)))%R
      by (now rewrite <- Rsum_app, <- map_app, firstn_skipn).
    f_equal.
    + rewrite <- (map_nth_firstn d c C0) by (simpl in Hd; lia).
      rewrite map_map. reflexivity.
    + rewrite <- (IH (skipn c d)) by (rewrite length_skipn; simpl in Hd; lia).
      fold (Rsum (map (fun x => Rsum (map (fun ig => f (nth (S x * c + ig) d C0))
                                          (seq 0 c))) (seq 0 r))).
      f_equal. apply map_ext. intros isp. f_equal. apply map_ext. intros ig.
      rewrite nth_skipn. do 2 f_equal. simpl. lia.
Qed.

Lemma sum_sq_flat (u : ndarray C) (r c : nat) :
  shape u = [r; c] -> nd_wf u ->
  sum_sq_magnitudes u = Rsum (map Cnorm2 (data u)).
Proof.
  intros Hs Hwf. unfold sum_sq_magnitudes, coeff. rewrite Hs. simpl nth.
  apply sum_rows. unfold nd_wf in Hwf. rewrite Hwf, Hs. simpl. lia.
Qed.

Lemma vdot_fold_self (d : list C) (acc : C) :
  fold_left (fun a p => Cadd a (Cmul (Cconj (fst p)) (snd p))) (combine d d) acc =
  Cadd acc (RtoC (Rsum (map Cnorm2 d))).
Proof.
  revert acc. induction d as [|x d IH]; intros acc; simpl.
  - apply C_eq; simpl; ring.
  - rewrite IH. apply C_eq; unfold Cnorm2; simpl; ring.
Qed.

Lemma vdot_self (u : ndarray C) : vdot u u = Ok (RtoC (Rsum (map Cnorm2 (data u)))).
Proof.
  unfold vdot. rewrite Nat.eqb_refl, vdot_fold_self. f_equal.
  apply C_eq; simpl; ring.
Qed.

Lemma Rsum_pointwise (f : C -> R) :
  forall d d', length d' = length d ->
  (forall i, i < length d -> f (nth i d' C0) = f (nth i d C0)) ->
  Rsum (map f d') = Rsum (map f d).
Proof.
  induction d as [|x d IH]; intros [|y d'] Hl H; simpl in Hl; try discriminate.
  - reflexivity.
  - simpl. f_equal.
    + apply (H 0). simpl. lia.
    + apply IH; [lia|]. intros i Hi. apply (H (S i)). simpl. lia.
Qed.

(** ** Broadcasting two arrays of one shape *)

Lemma combine_firstn_skipn {A B : Type} (c : nat) (da : list A) (db : list B) :
  combine (firstn c da) (firstn c db) ++ combine (skipn c da) (skipn c db) =
  combine da db.
Proof.
  revert da db. induction c as [|c IH]; intros da db; [reflexivity|].
  destruct da as [|x da], db as [|y db]; simpl; try reflexivity.
  - now destruct (skipn c da).
  - f_equal. apply IH.
Qed.

Lemma rows_same {A B : Type} (F : list A -> list B -> option (list (A * B))) (c : nat) :
  (forall a b, length a = c -> length b = c -> F a b = Some (combine a b)) ->
  forall n da db, length da = n * c -> length db = n * c ->
  option_concat (map (fun p => F (fst p) (snd p)) (combine (rows n c da) (rows n c db)))
  = Some (combine da db).
Proof.
  intros HF n. induction n as [|n IH]; intros da db Ha Hb.
  - destruct da; [|discriminate]. reflexivity.
  - simpl. rewrite HF.
    + rewrite IH by (rewrite length_skipn; simpl in *; lia).
      now rewrite combine_firstn_skipn.
    + apply firstn_length_le. simpl in Ha. lia.
    + apply firstn_length_le. simpl in Hb. lia.
Qed.

Lemma bcast_same {A B : Type} (sh : list nat) :
  forall (da : list A) (db : list B),
  length da = size_of sh -> length db = size_of sh ->
  bcast sh sh da db = Some (combine da db).
Proof.
  induction sh as [|n sh IH]; intros da db Ha Hb.
  - reflexivity.
  - cbn [bcast]. rewrite Nat.eqb_refl.
    apply rows_same; auto.
Qed.

Lemma isclose_C_refl (c : C) : isclose_C c c = true.
Proof.
  unfold isclose_C. apply Rleb_le.
  replace (Cabs (Csub c c)) with 0%R.
  - pose proof (sqrt_pos (Re c * Re c + Im c * Im c)) as H.
    unfold Cabs, atol, rtol. nra.
  - unfold Cabs, Csub. simpl.
    replace ((Re c - Re c) * (Re c - Re c) + (Im c - Im c) * (Im c - Im c))%R
      with 0%R by ring.
    now rewrite sqrt_0.
Qed.

Lemma allclose_refl (u : ndarray C) : nd_wf u -> allclose u u = Ok true.
Proof.
  intros Hwf. unfold allclose, broadcast, pad.
  rewrite Nat.max_id. unfold ndim. rewrite Nat.sub_diag. simpl app.
  rewrite bcast_same by exact Hwf. f_equal.
  apply forallb_forall. intros [a b] Hin. simpl.
  assert (a = b) as ->; [|apply isclose_C_refl].
  clear Hwf. induction (data u) as [|x l IH]; simpl in Hin; [contradiction|].
  destruct Hin as [E|Hin]; [congruence|auto].
Qed.

(** ** Construction, replacement and the state they leave *)

Section Construction.

Context {collab : Collaborators}.

Lemma shape_tuple_pair {A : Type} (u : ndarray A) (n : Z) (m : nat) :
  shape_tuple u = [n; Z.of_nat m] ->
  exists a, shape u = [a; m] /\ Z.of_nat a = n.
Proof.
  unfold shape_tuple. destruct (shape u) as [|a [|b [|c l]]]; simpl; try discriminate.
  intros H. injection H as H1 H2. apply Nat2Z.inj in H2. subst b.
  exists a. split; auto.
Qed.

Lemma constructor_accepts (n sp b : Z) (g : GSphere) (u : ndarray C) :
  shape_tuple u = [n; Z.of_nat (gsphere_npw g)] ->
  PWWaveFunction n sp b g u = Ok (mkWave n sp b g (np_array u) None None).
Proof.
  intros H. destruct (shape_tuple_pair u n _ H) as (a & Hs & Ha).
  unfold PWWaveFunction, ndim, shape_tuple. rewrite Hs. simpl.
  rewrite Ha, Z.eqb_refl, Nat.eqb_refl. reflexivity.
Qed.

Lemma constructor_rejects (n sp b : Z) (g : GSphere) (u : ndarray C) :
  shape_tuple u <> [n; Z.of_nat (gsphere_npw g)] ->
  PWWaveFunction n sp b g u = Raise AssertionError.
Proof.
  intros H. unfold PWWaveFunction, ndim, shape_tuple in *.
  destruct (shape u) as [|a [|c [|x l]]]; simpl in *; try reflexivity.
  destruct (Z.eqb_spec (Z.of_nat a) n) as [Ea|Ea]; simpl; [|reflexivity].
  destruct (Nat.eqb_spec c (gsphere_npw g)) as [Ec|Ec]; simpl; [|reflexivity].
  exfalso. apply H. congruence.
Qed.

Lemma constructor_valid (n sp b : Z) (g : GSphere) (u : ndarray C) (w : WaveFunction) :
  nd_wf u -> PWWaveFunction n sp b g u = Ok w -> valid w.
Proof.
  intros Hwf Hc.
  destruct (list_eq_dec Z.eq_dec (shape_tuple u) [n; Z.of_nat (gsphere_npw g)]) as [E|E].
  - rewrite (constructor_accepts _ _ _ _ _ E) in Hc. injection Hc as <-.
    split; simpl; [exact Hwf|exact E].
  - rewrite (constructor_rejects _ _ _ _ _ E) in Hc. discriminate.
Qed.

Lemma set_ug_rejects (w : WaveFunction) (u : ndarray C) :
  shape_tuple u <> wave_shape w -> set_ug u w = (Raise AssertionError, w).
Proof.
  intros H. apply tuple_eqb_neq in H.
  unfold set_ug, bindM, read, lift. simpl. rewrite H. reflexivity.
Qed.

Lemma set_ug_raises (w : WaveFunction) (u : ndarray C) :
  shape_tuple u = wave_shape w ->
  set_ug u w =
  (Raise (TypeError "can't set attributes of built-in/extension type 'set'"), w).
Proof.
  intros H. apply tuple_eqb_eq in H.
  unfold set_ug, bindM, read, lift. simpl. rewrite H. reflexivity.
Qed.

(** Whatever array it is given, [set_ug] raises and leaves the object as it was. *)
Lemma set_ug_never_returns (w : WaveFunction) (u : ndarray C) :
  (exists e, fst (set_ug u w) = Raise e) /\ snd (set_ug u w) = w.
Proof.
  destruct (list_eq_dec Z.eq_dec (shape_tuple u) (wave_shape w)) as [E|E].
  - rewrite (set_ug_raises _ _ E). simpl. eauto.
  - rewrite (set_ug_rejects _ _ E). simpl. eauto.
Qed.

Lemma rotate_succeeds (w : WaveFunction) (s : SymmOp) :
  valid w -> nspinor w = 1%Z ->
  exists w', rotate w s = Ok w' /\ valid w' /\ nspinor w' = 1%Z /\
             spin w' = rotated_spin w s /\ band w' = band w /\
             gsphere w' = gsphere_rotate (gsphere w) s.
Proof.
  intros Hv H1.
  pose proof (gsphere_rotate_len (gsphere w) s) as Hk.
  assert (Hshape : forall u, nd_wf u -> shape u = [1; npw w] ->
            valid (mkWave 1 (rotated_spin w s) (band w) (gsphere_rotate (gsphere w) s)
                          u None None)).
  { intros u Hwf Hs. split; [exact Hwf|].
    unfold shape_tuple, wave_shape, npw, gsphere. simpl _ug. simpl _gsphere.
    fold (gsphere w). rewrite Hs, Hk. reflexivity. }
  destruct (valid_single_spinor w Hv H1) as [Hs Hl].
  destruct (allclose3 (tau s) zeros3) eqn:E.
  - rewrite (rotate_without_translation w s Hv H1 E).
    eexists. split; [reflexivity|].
    split; [apply Hshape; [apply Hv|exact Hs]|]. repeat split.
  - destruct (rotate_with_translation w s Hv H1 E) as (d' & Hr & Hd & _).
    rewrite Hr. eexists. split; [reflexivity|].
    split; [apply Hshape; [unfold nd_wf; simpl; lia|reflexivity]|]. repeat split.
Qed.

End Construction.

(** * The claims about the wavefunction *)

Section Claims.

Context {collab : Collaborators}.

(** C7.  A coefficient array whose shape is not [(nspinor, npw)] is refused
    by an assertion, by the constructor and by [set_ug] alike; a refused
    replacement leaves the object, its coefficients and its cached [ur]
    included, exactly as it was. *)
Theorem shape_mismatch_rejected
  (n sp b : Z) (g : GSphere) (u u' : ndarray C) (w : WaveFunction) :
  shape_tuple u <> [n; Z.of_nat (gsphere_npw g)] ->
  shape_tuple u' <> wave_shape w ->
  PWWaveFunction n sp b g u = Raise AssertionError /\
  set_ug u' w = (Raise AssertionError, w).
Proof.
  intros Hu Hu'. split.
  - now apply constructor_rejects.
  - now apply set_ug_rejects.
Qed.

(** C8.  On a wavefunction whose spinor count is not 1, [rotate] raises its
    "not available" error at once, whatever the operation and whatever the
    sphere and the mesh would have done. *)
Theorem rotate_spinor_unsupported (w : WaveFunction) (s : SymmOp) :
  nspinor w <> 1%Z ->
  rotate w s = Raise (ValueError "Spinor rotation not available yet.").
Proof.
  intros H. unfold rotate. apply Z.eqb_neq in H. rewrite H. reflexivity.
Qed.

(** C9, as the code has it.  A selector whose lower-case form is none of
    "g", "gsphere", "r" makes [braket] raise the wrong-space error, one whose
    lower-case form is neither "g" nor "r" makes [norm2] raise it; neither
    call returns a value or changes an object. *)
Theorem unrecognised_mode_rejected
  (w : WaveFunction) (o : operand) (s1 s2 : string) :
  ~ In (lower s1) ["g"; "gsphere"; "r"]%string ->
  ~ In (lower s2) ["g"; "r"]%string ->
  braket s1 (w, o) = (Raise (ValueError ("Wrong space: " ++ lower s1)), (w, o)) /\
  norm2 s2 w = (Raise (ValueError ("Wrong space: " ++ lower s2)), w).
Proof.
  intros H1 H2. split.
  - now apply braket_wrong_space.
  - now apply norm2_wrong_space.
Qed.

(** C10.  The selector is lowered before the dispatch: [norm2] and [braket]
    give for a selector what they give for its lower-case form, so "G" is
    "g" and "GSPHERE" is "gsphere", and the wrong-space error is raised
    exactly when the lower-case form is not a recognised selector. *)
Theorem mode_case_insensitive (w : WaveFunction) (o : operand) (s : string) :
  norm2 s w = norm2 (lower s) w /\
  braket s (w, o) = braket (lower s) (w, o) /\
  norm2 "G" w = norm2 "g" w /\
  braket "GSPHERE" (w, o) = braket "gsphere" (w, o) /\
  (invalid_mode (fst (norm2 s w)) <-> ~ In (lower s) ["g"; "r"]%string) /\
  (invalid_mode (fst (braket s (w, o))) <->
   ~ In (lower s) ["g"; "gsphere"; "r"]%string).
Proof.
  split; [apply norm2_lower|].
  split; [apply braket_lower|].
  split; [apply (norm2_lower "G")|].
  split; [apply (braket_lower "GSPHERE")|].
  split; split.
  - intros Hinv Hin. exact (norm2_recognised s w Hin Hinv).
  - intros Hn. rewrite (norm2_wrong_space s w Hn). simpl. now exists (lower s).
  - intros Hinv Hin. exact (braket_recognised s (w, o) Hin Hinv).
  - intros Hn. rewrite (braket_wrong_space s (w, o) Hn). simpl. now exists (lower s).
Qed.

(** C5.  Construction from coefficients of the matching shape succeeds and
    keeps the coefficients; [norm2("g")] of the new wavefunction is the sum
    over the spinor components and the G-vectors of their squared
    magnitudes, [braket(w, w, "gsphere")] is the same number with imaginary
    part zero, and the number is not negative. *)
Theorem norm2_g_is_sum_of_squares
  (n sp b : Z) (g : GSphere) (u : ndarray C) :
  nd_wf u ->
  shape_tuple u = [n; Z.of_nat (gsphere_npw g)] ->
  exists w,
    PWWaveFunction n sp b g u = Ok w /\
    shape (ug w) = shape u /\ data (ug w) = data u /\
    norm2 "g" w = (Ok (sum_sq_magnitudes u), w) /\
    braket "gsphere" (w, Self) = (Ok (mkC (sum_sq_magnitudes u) 0), (w, Self)) /\
    (0 <= sum_sq_magnitudes u)%R.
Proof.
  intros Hwf Hs.
  destruct (shape_tuple_pair u n _ Hs) as (a & Hsh & _).
  rewrite (sum_sq_flat u a _ Hsh Hwf).
  eexists. split; [apply constructor_accepts; exact Hs|].
  split; [reflexivity|]. split; [reflexivity|].
  split; [|split].
  - rewrite (norm2_g "g" _ eq_refl). unfold ug; simpl _ug.
    rewrite vdot_self. reflexivity.
  - rewrite (braket_gsphere "gsphere" _ _ eq_refl). unfold ug; simpl.
    rewrite vdot_self. reflexivity.
  - apply Rsum_Cnorm2_nonneg.
Qed.

(** The spheres [!=] calls unequal are the spheres that differ. *)
Lemma gsphere_ne_false (a b : GSphere) : gsphere_ne a b = false <-> a = b.
Proof.
  unfold gsphere_ne. destruct (GSphere_eq_dec a b); split; congruence.
Qed.

(** A translation with a component above 1e-8 is not close to zero for
    [np.allclose]. *)
Lemma exceeds_tolerance_not_close (t : vec3 R) :
  exceeds_tolerance t -> allclose3 t zeros3 = false.
Proof.
  intros Ht. destruct (allclose3 t zeros3) eqn:E; [|reflexivity].
  apply allclose3_zeros in E. unfold atol in E. unfold exceeds_tolerance in Ht.
  exfalso. lra.
Qed.

(** C2, as the code has it.  When some component of the translation exceeds
    1e-8 in absolute value (the translation is not within numpy's tolerance
    of zero), [rotate] on a single-spinor wavefunction returns a
    wavefunction on the sphere [self.gsphere.rotate(symmop)] gives, whose
    coefficient of index [ig] is the coefficient of [w] times
    [exp(-2 pi i (g'_ig + k') . tau)], with [g'_ig] the [ig]-th vector and
    [k'] the k-point of that rotated sphere: one phase per G-vector. *)
Theorem rotate_applies_phase_per_vector (w : WaveFunction) (s : SymmOp) :
  valid w -> nspinor w = 1%Z ->
  exceeds_tolerance (tau s) ->
  rotates_with_phases w s.
Proof.
  intros Hv H1 Ht.
  pose proof (exceeds_tolerance_not_close (tau s) Ht) as Hc.
  destruct (rotate_with_translation w s Hv H1 Hc) as (d' & Hr & Hl & Hnth).
  eexists. split; [exact Hr|]. split; [reflexivity|].
  intros isp ig Hisp Hig. rewrite H1 in Hisp.
  assert (isp = 0) as -> by lia.
  destruct (valid_single_spinor w Hv H1) as [Hs _].
  unfold coeff, ug, gsphere. simpl _ug. simpl _gsphere. rewrite Hs. simpl.
  rewrite (Hnth ig Hig). now rewrite phase_euler.
Qed.

(** C3.  With a translation that is exactly zero, [rotate] on a
    single-spinor wavefunction returns a wavefunction with a copy of the
    coefficient array; and if the sphere rotated by the identity operation is
    equal to the sphere of [w], the wavefunction rotated by the identity is
    equal to [w] under [==], whichever side it is compared from. *)
Theorem rotate_zero_translation_copies (w : WaveFunction) (s : SymmOp) :
  valid w -> nspinor w = 1%Z ->
  (tau s = zeros3 ->
   exists w', rotate w s = Ok w' /\ ug w' = ug w) /\
  (gsphere_ne (gsphere_rotate (gsphere w) identity_op) (gsphere w) = false ->
   exists w', rotate w identity_op = Ok w' /\ ug w' = ug w /\ spin w' = spin w /\
              __eq__ w' (Some w) = Ok true /\ __eq__ w (Some w') = Ok true).
Proof.
  intros Hv H1. split.
  - intros Ht.
    assert (Hc : allclose3 (tau s) zeros3 = true)
      by (rewrite Ht; apply allclose3_exact_zero).
    rewrite (rotate_without_translation w s Hv H1 Hc).
    eexists. split; reflexivity.
  - intros Hne. apply gsphere_ne_false in Hne.
    rewrite (rotate_without_translation w identity_op Hv H1 allclose3_exact_zero).
    eexists. split; [reflexivity|].
    split; [reflexivity|]. split; [reflexivity|].
    destruct Hv as [Hwf _].
    unfold __eq__, gsphere, ug in *. simpl. rewrite Hne.
    replace (gsphere_ne (_gsphere w) (_gsphere w)) with false
      by (symmetry; now apply gsphere_ne_false).
    split; now apply allclose_refl.
Qed.

(** C4.  Rotating a single-spinor wavefunction by an operation whose
    translation is not zero keeps the inner product of the coefficient array
    with itself: [braket(., ., "gsphere")] and [norm2("g")] give for the
    rotated wavefunction the number they give for [w]. *)
Theorem rotate_preserves_norm (w : WaveFunction) (s : SymmOp) :
  valid w -> nspinor w = 1%Z ->
  tau s <> zeros3 ->
  exists w' x,
    rotate w s = Ok w' /\
    braket "gsphere" (w', Self) = (Ok (mkC x 0), (w', Self)) /\
    braket "gsphere" (w, Self) = (Ok (mkC x 0), (w, Self)) /\
    norm2 "g" w' = (Ok x, w') /\
    norm2 "g" w = (Ok x, w).
Proof.
  intros Hv H1 _.
  assert (Hnorm : forall v : WaveFunction,
            braket "gsphere" (v, Self) = (Ok (mkC (Rsum (map Cnorm2 (data (_ug v)))) 0), (v, Self))
            /\ norm2 "g" v = (Ok (Rsum (map Cnorm2 (data (_ug v)))), v)).
  { intros v. rewrite (braket_gsphere "gsphere" _ _ eq_refl), (norm2_g "g" _ eq_refl).
    unfold ug. simpl operand_obj. rewrite vdot_self. split; reflexivity. }
  destruct (allclose3 (tau s) zeros3) eqn:Hc.
  - exists (mkWave 1 (rotated_spin w s) (band w) (gsphere_rotate (gsphere w) s)
                   (_ug w) None None), (Rsum (map Cnorm2 (data (_ug w)))).
    split; [exact (rotate_without_translation w s Hv H1 Hc)|].
    destruct (Hnorm w) as [Hb Hn]. rewrite Hb, Hn.
    destruct (Hnorm (mkWave 1 (rotated_spin w s) (band w) (gsphere_rotate (gsphere w) s)
                            (_ug w) None None)) as [Hb' Hn'].
    rewrite Hb', Hn'. simpl. repeat split.
  - destruct (rotate_with_translation w s Hv H1 Hc) as (d' & Hr & Hl & Hnth).
    destruct (valid_single_spinor w Hv H1) as [_ Hlen].
    eexists. exists (Rsum (map Cnorm2 (data (_ug w)))).
    split; [exact Hr|].
    destruct (Hnorm w) as [Hb Hn]. rewrite Hb, Hn.
    match goal with
    | |- braket _ (?v, Self) = _ /\ _ => destruct (Hnorm v) as [Hb' Hn']
    end.
    rewrite Hb', Hn'. simpl _ug. simpl data.
    assert (E : Rsum (map Cnorm2 d') = Rsum (map Cnorm2 (data (_ug w)))).
    { apply Rsum_pointwise; [congruence|].
      intros i Hi. rewrite Hnth by lia.
      now rewrite phase_euler, Cnorm2_unit_phase. }
    rewrite E. repeat split.
Qed.

(** C6.  [rotate] on a single-spinor wavefunction returns a wavefunction
    whose spin channel is [(spin + 1) mod 2] for an anti-ferromagnetic
    operation and [spin] for a ferromagnetic one; applying an
    anti-ferromagnetic operation again brings a spin channel 0 or 1 back to
    its value, 0 going to 1 and back to 0. *)
Theorem rotate_spin_channel (w : WaveFunction) (s : SymmOp) :
  valid w -> nspinor w = 1%Z ->
  exists w',
    rotate w s = Ok w' /\
    spin w' = (if is_fm s then spin w else ((spin w + 1) mod 2)%Z) /\
    (is_fm s = false -> (spin w = 0 \/ spin w = 1)%Z ->
     exists w'',
       rotate w' s = Ok w'' /\ spin w'' = spin w /\
       (spin w = 0%Z -> spin w' = 1%Z)).
Proof.
  intros Hv H1.
  destruct (rotate_succeeds w s Hv H1) as (w' & Hr & Hv' & H1' & Hsp & _).
  exists w'. split; [exact Hr|]. split; [exact Hsp|].
  intros Hafm Hspin.
  destruct (rotate_succeeds w' s Hv' H1') as (w'' & Hr' & _ & _ & Hsp' & _).
  exists w''. split; [exact Hr'|].
  unfold rotated_spin in *. rewrite Hafm in *.
  split.
  - rewrite Hsp', Hsp. destruct Hspin as [-> | ->]; reflexivity.
  - intros E. rewrite Hsp, E. reflexivity.
Qed.

End Claims.

(** * The claims on sample objects *)

Module SampleFacts.

Import Sample.

Lemma w0_valid : valid w0.
Proof. split; reflexivity. Qed.

Lemma w0_cached_valid : valid w0_cached.
Proof. split; reflexivity. Qed.

Lemma rot_vec_R_identity (k : vec3 R) : rot_vec_R imat k = k.
Proof.
  destruct k as [a b c]. unfold rot_vec_R, imat, identity_op. simpl.
  f_equal; ring.
Qed.

Lemma rot_vec_Z_identity (g : vec3 Z) : rot_vec_Z imat g = g.
Proof.
  destruct g as [a b c]. unfold rot_vec_Z, imat, identity_op.
  cbn [v1 v2 v3 rot_g]. f_equal; ring.
Qed.

(** The sample sphere keeps a sphere in place under the identity matrix. *)
Lemma matrix_rotate_identity (g : GSphere) (s : SymmOp) :
  rot_g s = imat -> matrix_rotate g s = g.
Proof.
  intros E. destruct g as [e [k] gv]. unfold matrix_rotate. rewrite E. simpl.
  rewrite rot_vec_R_identity. f_equal.
  induction gv as [|x gv IH]; simpl; [reflexivity|].
  now rewrite rot_vec_Z_identity, IH.
Qed.

Lemma quarter_not_close : allclose3 (tau op_quarter) zeros3 = false.
Proof.
  destruct (allclose3 (tau op_quarter) zeros3) eqn:E; [|reflexivity].
  apply allclose3_zeros in E. destruct E as [E _]. simpl in E.
  rewrite Rabs_right in E by lra. unfold atol in E. lra.
Qed.

Lemma tiny_is_close : allclose3 (tau op_tiny) zeros3 = true.
Proof.
  apply allclose3_zeros. simpl. rewrite Rabs_R0, Rabs_right by lra.
  unfold atol. lra.
Qed.

Lemma vec3_v1_neq (a b : vec3 R) : v1 a <> v1 b -> a <> b.
Proof. intros H E. apply H. now rewrite E. Qed.

End SampleFacts.

Import Sample SampleFacts.

(** C1 on the sample wavefunction.  The array [u1] has the shape of
    [w0_cached]; [set_ug] nevertheless raises a TypeError at the assignment
    [set._ug = ug], and the object keeps its old coefficients and its cached
    [ur]: the replacement never takes place. *)
Theorem set_ug_matching_shape_raises :
  shape_tuple u1 = wave_shape w0_cached /\
  set_ug u1 w0_cached =
    (Raise (TypeError "can't set attributes of built-in/extension type 'set'"),
     w0_cached) /\
  ug (snd (set_ug u1 w0_cached)) = u0 /\
  _ur (snd (set_ug u1 w0_cached)) = Some u0.
Proof.
  assert (H : shape_tuple u1 = wave_shape w0_cached) by reflexivity.
  split; [exact H|].
  rewrite (set_ug_raises w0_cached u1 H).
  repeat split.
Qed.

(** The refusals on the sample objects: an array of shape (1, 3) for a
    sphere of two vectors. *)
Lemma shape_mismatch_rejected_witness :
  shape_tuple u_bad <> [1%Z; Z.of_nat (gsphere_npw g0)] /\
  shape_tuple u_bad <> wave_shape w0_cached /\
  PWWaveFunction 1 0 0 g0 u_bad = Raise AssertionError /\
  set_ug u_bad w0_cached = (Raise AssertionError, w0_cached).
Proof.
  assert (H1 : shape_tuple u_bad <> [1%Z; Z.of_nat (gsphere_npw g0)])
    by (simpl; discriminate).
  assert (H2 : shape_tuple u_bad <> wave_shape w0_cached)
    by (simpl; discriminate).
  split; [exact H1|]. split; [exact H2|].
  exact (shape_mismatch_rejected 1 0 0 g0 u_bad u_bad w0_cached H1 H2).
Defined.

(** The sample two-spinor wavefunction is not rotated. *)
Lemma rotate_spinor_unsupported_witness :
  nspinor w_spinor <> 1%Z /\
  rotate w_spinor op_quarter = Raise (ValueError "Spinor rotation not available yet.").
Proof.
  assert (H : nspinor w_spinor <> 1%Z) by (simpl; discriminate).
  split; [exact H|].
  exact (rotate_spinor_unsupported w_spinor op_quarter H).
Defined.

(** "Sphere" is no selector of [braket], "GSphere" none of [norm2]. *)
Lemma unrecognised_mode_rejected_witness :
  ~ In (lower "Sphere") ["g"; "gsphere"; "r"]%string /\
  ~ In (lower "GSphere") ["g"; "r"]%string /\
  braket "Sphere" (w0, Self) = (Raise (ValueError "Wrong space: sphere"), (w0, Self)) /\
  norm2 "GSphere" w0 = (Raise (ValueError "Wrong space: gsphere"), w0).
Proof.
  assert (H1 : ~ In (lower "Sphere") ["g"; "gsphere"; "r"]%string)
    by (simpl; intros [E|[E|[E|[]]]]; discriminate E).
  assert (H2 : ~ In (lower "GSphere") ["g"; "r"]%string)
    by (simpl; intros [E|[E|[]]]; discriminate E).
  split; [exact H1|]. split; [exact H2|].
  exact (unrecognised_mode_rejected w0 Self "Sphere" "GSphere" H1 H2).
Defined.

(** C9 as stated fails on upper-case selectors: "G" is not one of the
    strings "g", "r" and "GSPHERE" is not one of "g", "gsphere", "r", yet
    [norm2("G")] and [braket(w, "GSPHERE")] return the value 5. *)
Lemma uppercase_mode_accepted :
  ~ In "G"%string ["g"; "r"]%string /\
  ~ In "GSPHERE"%string ["g"; "gsphere"; "r"]%string /\
  norm2 "G" w0 = (Ok 5%R, w0) /\
  braket "GSPHERE" (w0, Self) = (Ok (mkC 5 0), (w0, Self)) /\
  ~ invalid_mode (fst (norm2 "G" w0)) /\
  ~ invalid_mode (fst (braket "GSPHERE" (w0, Self))).
Proof.
  assert (E : Rsum (map Cnorm2 (data u0)) = 5%R)
    by (unfold Cnorm2, Rsum; simpl; ring).
  assert (N : norm2 "G" w0 = (Ok 5%R, w0)).
  { rewrite (norm2_g "G" w0 eq_refl). unfold ug. simpl _ug.
    rewrite vdot_self, E. reflexivity. }
  assert (B : braket "GSPHERE" (w0, Self) = (Ok (mkC 5 0), (w0, Self))).
  { rewrite (braket_gsphere "GSPHERE" w0 Self eq_refl). unfold ug. simpl.
    rewrite vdot_self, E. reflexivity. }
  split; [intros [H|[H|[]]]; discriminate H|].
  split; [intros [H|[H|[H|[]]]]; discriminate H|].
  split; [exact N|]. split; [exact B|].
  rewrite N, B. simpl. tauto.
Qed.

(** The sample wavefunction is constructed from [u0] on [g0]. *)
Lemma norm2_g_is_sum_of_squares_witness :
  nd_wf u0 /\
  shape_tuple u0 = [1%Z; Z.of_nat (gsphere_npw g0)] /\
  exists w,
    PWWaveFunction 1 0 0 g0 u0 = Ok w /\
    shape (ug w) = shape u0 /\ data (ug w) = data u0 /\
    norm2 "g" w = (Ok (sum_sq_magnitudes u0), w) /\
    braket "gsphere" (w, Self) = (Ok (mkC (sum_sq_magnitudes u0) 0), (w, Self)) /\
    (0 <= sum_sq_magnitudes u0)%R.
Proof.
  assert (H1 : nd_wf u0) by reflexivity.
  assert (H2 : shape_tuple u0 = [1%Z; Z.of_nat (gsphere_npw g0)]) by reflexivity.
  split; [exact H1|]. split; [exact H2|].
  exact (norm2_g_is_sum_of_squares 1 0 0 g0 u0 H1 H2).
Defined.

(** A translation by a quarter is outside the tolerance, and the sample
    wavefunction is rotated with one phase per vector. *)
Lemma rotate_applies_phase_per_vector_witness :
  valid w0 /\ nspinor w0 = 1%Z /\
  exceeds_tolerance (tau op_quarter) /\
  rotates_with_phases w0 op_quarter.
Proof.
  assert (Ht : exceeds_tolerance (tau op_quarter)).
  { left. simpl. rewrite Rabs_right by lra. lra. }
  split; [exact w0_valid|]. split; [reflexivity|].
  split; [exact Ht|].
  exact (rotate_applies_phase_per_vector w0 op_quarter w0_valid eq_refl Ht).
Defined.

(** C2 as stated fails on a translation that is not zero but within numpy's
    tolerance of it: for [tau = (1e-9, 0, 0)] [rotate] returns a wavefunction
    on the rotated sphere with the coefficients copied, and the coefficient
    [2j] of the vector (1, 0, 0) is not [2j] times [exp(-2 pi i 1e-9)]. *)
Lemma tiny_translation_not_phased :
  valid w0 /\ nspinor w0 = 1%Z /\
  tau op_tiny <> zeros3 /\
  (exists w',
     rotate w0 op_tiny = Ok w' /\
     gsphere w' = gsphere_rotate (gsphere w0) op_tiny /\
     nth 1 (gvecs (gsphere_rotate (gsphere w0) op_tiny)) (mkVec3 0 0 0)%Z
       = (mkVec3 1 0 0)%Z /\
     frac_coords (kpoint (gsphere_rotate (gsphere w0) op_tiny)) = zeros3 /\
     coeff (ug w') 0 1 = mkC 0 2 /\
     coeff (ug w') 0 1 <>
     Cmul (coeff (ug w0) 0 1)
          (unit_phase (dot3 (vadd_ZR (mkVec3 1 0 0)%Z zeros3) (tau op_tiny)))) /\
  ~ rotates_with_phases w0 op_tiny.
Proof.
  assert (Hrot : gsphere_rotate (gsphere w0) op_tiny = g0)
    by exact (matrix_rotate_identity g0 op_tiny eq_refl).
  assert (Hr : rotate w0 op_tiny =
               Ok (mkWave 1 0 0 (gsphere_rotate (gsphere w0) op_tiny) u0 None None))
    by exact (rotate_without_translation w0 op_tiny w0_valid eq_refl tiny_is_close).
  assert (Hne : mkC 0 2 <>
                Cmul (mkC 0 2)
                     (unit_phase (dot3 (vadd_ZR (mkVec3 1 0 0)%Z zeros3) (tau op_tiny)))).
  { intros Hph. apply (f_equal Re) in Hph. simpl in Hph.
    assert (Ex : dot3 (vadd_ZR (mkVec3 1 0 0)%Z zeros3) (mkVec3 1e-9 0 0)%R = 1e-9%R)
      by (unfold dot3, vadd_ZR, zeros3; simpl; lra).
    rewrite Ex in Hph.
    assert (Ht : (0 < 2 * PI * 1e-9 < PI)%R) by (pose proof PI_RGT_0; split; lra).
    pose proof (sin_gt_0 _ (proj1 Ht) (proj2 Ht)) as Hs.
    lra. }
  split; [exact w0_valid|]. split; [reflexivity|].
  split.
  { apply vec3_v1_neq. simpl. lra. }
  split.
  { eexists. split; [exact Hr|]. split; [reflexivity|].
    rewrite Hrot. split; [reflexivity|]. split; [reflexivity|].
    split; [reflexivity|exact Hne]. }
  intros (w' & Hr' & _ & Hph).
  rewrite Hr in Hr'. injection Hr' as <-.
  specialize (Hph 0 1 eq_refl (le_n 2)). cbv zeta in Hph.
  rewrite Hrot in Hph. apply Hne. exact Hph.
Qed.

(** The identity leaves the sample sphere in place, and the sample
    wavefunction rotated by it is equal to the sample wavefunction. *)
Lemma rotate_zero_translation_copies_witness :
  valid w0 /\ nspinor w0 = 1%Z /\
  tau identity_op = zeros3 /\
  gsphere_ne (gsphere_rotate (gsphere w0) identity_op) (gsphere w0) = false /\
  (exists w', rotate w0 identity_op = Ok w' /\ ug w' = ug w0) /\
  (exists w', rotate w0 identity_op = Ok w' /\ ug w' = ug w0 /\ spin w' = spin w0 /\
              __eq__ w' (Some w0) = Ok true /\ __eq__ w0 (Some w') = Ok true).
Proof.
  assert (Hne : gsphere_ne (gsphere_rotate (gsphere w0) identity_op) (gsphere w0) = false).
  { apply gsphere_ne_false. exact (matrix_rotate_identity g0 identity_op eq_refl). }
  split; [exact w0_valid|]. split; [reflexivity|].
  split; [reflexivity|]. split; [exact Hne|].
  destruct (rotate_zero_translation_copies w0 identity_op w0_valid eq_refl) as [HA HB].
  split.
  - exact (HA eq_refl).
  - exact (HB Hne).
Defined.

(** The translation by a quarter keeps the norm of the sample wavefunction. *)
Lemma rotate_preserves_norm_witness :
  valid w0 /\ nspinor w0 = 1%Z /\
  tau op_quarter <> zeros3 /\
  exists w' x,
    rotate w0 op_quarter = Ok w' /\
    braket "gsphere" (w', Self) = (Ok (mkC x 0), (w', Self)) /\
    braket "gsphere" (w0, Self) = (Ok (mkC x 0), (w0, Self)) /\
    norm2 "g" w' = (Ok x, w') /\
    norm2 "g" w0 = (Ok x, w0).
Proof.
  assert (Ht : tau op_quarter <> zeros3) by (apply vec3_v1_neq; simpl; lra).
  split; [exact w0_valid|]. split; [reflexivity|].
  split; [exact Ht|].
  exact (rotate_preserves_norm w0 op_quarter w0_valid eq_refl Ht).
Defined.

(** The anti-ferromagnetic sample operation takes spin 0 to 1 and back to 0. *)
Lemma rotate_spin_channel_witness :
  valid w0 /\ nspinor w0 = 1%Z /\
  exists w' w'',
    rotate w0 op_afm = Ok w' /\ rotate w' op_afm = Ok w'' /\
    spin w0 = 0%Z /\ spin w' = 1%Z /\ spin w'' = 0%Z.
Proof.
  split; [exact w0_valid|]. split; [reflexivity|].
  destruct (rotate_spin_channel w0 op_afm w0_valid eq_refl)
    as (w' & Hr & Hsp & Htwice).
  destruct (Htwice eq_refl (or_introl eq_refl)) as (w'' & Hr' & Hsp' & H01).
  exists w', w''. repeat split; auto.
Defined.

(** * The life of an object: cache and mesh *)

Section LifeFacts.

Context {collab : Collaborators}.

Lemma constructor_inv (n sp b : Z) (g : GSphere) (u : ndarray C) (w : WaveFunction) :
  PWWaveFunction n sp b g u = Ok w ->
  w = mkWave n sp b g (np_array u) None None.
Proof.
  intros H.
  destruct (list_eq_dec Z.eq_dec (shape_tuple u) [n; Z.of_nat (gsphere_npw g)]) as [E|E].
  - rewrite (constructor_accepts n sp b g u E) in H. now injection H as <-.
  - rewrite (constructor_rejects n sp b g u E) in H. discriminate.
Qed.

Lemma ur_no_mesh (w : WaveFunction) :
  _mesh w = None -> _ur w = None -> ur w = (Raise (AttributeError "_mesh"), w).
Proof. intros Hm Hu. rewrite ur_eq, Hu, Hm. reflexivity. Qed.

Lemma ur_cached (w : WaveFunction) (r : ndarray C) :
  _ur w = Some r -> ur w = (Ok r, w).
Proof. intros Hu. rewrite ur_eq, Hu. reflexivity. Qed.

Lemma ur_computed (w : WaveFunction) (m : Mesh3D) :
  _mesh w = Some m -> _ur w = None ->
  ur w = (Ok (transform w m), with_ur w (Some (transform w m))).
Proof. intros Hm Hu. rewrite ur_eq, Hu, Hm. reflexivity. Qed.

(** A successful [ur] leaves the array it returned in the cache. *)
Lemma ur_leaves_cache (w w1 : WaveFunction) (r : ndarray C) :
  ur w = (Ok r, w1) -> _ur w1 = Some r.
Proof.
  rewrite ur_eq. destruct (_ur w) as [c|] eqn:Hu.
  - intros H. injection H as <- <-. exact Hu.
  - destruct (_mesh w); intros H; [|discriminate].
    injection H as <- <-. reflexivity.
Qed.

(** A failed [ur] leaves the object as it was. *)
Lemma ur_failure (w w1 : WaveFunction) (e : exn) :
  ur w = (Raise e, w1) -> w1 = w /\ e = AttributeError "_mesh".
Proof.
  rewrite ur_eq. destruct (_ur w); [discriminate|].
  destruct (_mesh w); [discriminate|].
  intros H. injection H as <- <-. split; reflexivity.
Qed.

Lemma ur2_eq (w : WaveFunction) :
  ur2 w =
  match ur w with
  | (Ok r, w1) => (Ok (squared_modulus r), w1)
  | (Raise e, w1) => (Raise e, w1)
  end.
Proof.
  unfold ur2. rewrite bindM_eq.
  destruct (ur w) as [[r|e] w1] eqn:E; cbn [fst snd]; [|reflexivity].
  rewrite bindM_eq, (ur_cached w1 r (ur_leaves_cache w w1 r E)). cbn [fst snd].
  assert (H : forall l : list C,
            map (fun p => Re (Cmul (Cconj (fst p)) (snd p))) (combine l l) =
            map Cnorm2 l).
  { induction l as [|x l IH]; simpl; [reflexivity|].
    apply f_equal2; [unfold Cnorm2; ring|exact IH]. }
  unfold ret, squared_modulus. now rewrite H.
Qed.

(** The state of [self] after [braket] in real space is the state [ur] leaves. *)
Lemma braket_r_eq (s : string) (w : WaveFunction) (o : operand) :
  lower s = "r"%string ->
  braket s (w, o) =
  match ur w with
  | (Raise e, w1) => (Raise e, (w1, o))
  | (Ok r1, w1) =>
      let finish r2 st :=
        match vdot r1 r2 with
        | Raise e => (Raise e, st)
        | Ok v =>
            match _mesh w1 with
            | Some m => (Ok (Cmul v (RtoC (dv m))), st)
            | None => (Raise (AttributeError "_mesh"), st)
            end
        end in
      match o with
      | Self => finish r1 (w1, Self)
      | Other x =>
          match ur x with
          | (Raise e, x1) => (Raise e, (w1, Other x1))
          | (Ok r2, x1) => finish r2 (w1, Other x1)
          end
      end
  end.
Proof.
  intros E. rewrite (braket_r s w o E).
  rewrite bindM_eq, on_self_eq. cbn [fst snd].
  destruct (ur w) as [[r1|e1] w1] eqn:E1; cbn [fst snd]; [|reflexivity].
  rewrite bindM_eq, on_other_eq.
  destruct o as [|x].
  - rewrite (ur_cached w1 r1 (ur_leaves_cache w w1 r1 E1)). cbn [fst snd].
    rewrite bindM_eq. unfold lift. cbn [fst snd].
    destruct (vdot r1 r1); cbv beta iota; [|reflexivity].
    rewrite bindM_eq, on_self_mesh. cbn [fst snd].
    destruct (_mesh w1); reflexivity.
  - destruct (ur x) as [[r2|e2] x1]; cbn [fst snd]; [|reflexivity].
    rewrite bindM_eq. unfold lift. cbn [fst snd].
    destruct (vdot r1 r2); cbv beta iota; [|reflexivity].
    rewrite bindM_eq, on_self_mesh. cbn [fst snd].
    destruct (_mesh w1); reflexivity.
Qed.

(** Every call leaves the object as it was, or as [ur] leaves it, or with an
    empty cache and possibly a new mesh. *)
Lemma after_cases (c : call) (w : WaveFunction) :
  after c w = w \/ after c w = snd (ur w) \/
  (exists m, after c w = with_ur (with_mesh w m) None).
Proof.
  destruct c as [u|m| | | |s|s o|s lhs]; simpl.
  - left. apply set_ug_never_returns.
  - right; right. exists (Some m). reflexivity.
  - right; right. exists (_mesh w). destruct w; reflexivity.
  - right; left. reflexivity.
  - right; left. rewrite ur2_eq. destruct (ur w) as [[r|e] w1]; reflexivity.
  - destruct (string_dec (lower s) "g") as [Eg|Ng].
    { left. rewrite (norm2_g s w Eg). reflexivity. }
    destruct (string_dec (lower s) "r") as [Er|Nr].
    { rewrite (norm2_r s w Er). destruct (_mesh w); [|now left].
      right; left. rewrite ur2_eq. destruct (ur w) as [[r|e] w1]; reflexivity. }
    left. rewrite norm2_wrong_space; [reflexivity|].
    intros [H|[H|[]]]; congruence.
  - destruct (string_dec (lower s) "g") as [Eg|Ng].
    { left. rewrite (braket_g s w o Eg). destruct (_mesh w); reflexivity. }
    destruct (string_dec (lower s) "gsphere") as [Es|Ns].
    { left. rewrite (braket_gsphere s w o Es). reflexivity. }
    destruct (string_dec (lower s) "r") as [Er|Nr].
    { right; left. rewrite (braket_r_eq s w o Er).
      destruct (ur w) as [[r1|e1] w1]; [|reflexivity].
      destruct o as [|x]; cbv beta zeta.
      - destruct (vdot r1 r1); [destruct (_mesh w1)|]; reflexivity.
      - destruct (ur x) as [[r2|e2] x1]; [|reflexivity].
        destruct (vdot r1 r2); [destruct (_mesh w1)|]; reflexivity. }
    left. rewrite braket_wrong_space; [reflexivity|].
    intros [H|[H|[H|[]]]]; congruence.
  - destruct (string_dec (lower s) "g") as [Eg|Ng].
    { left. rewrite (braket_g s lhs (Other w) Eg). destruct (_mesh lhs); reflexivity. }
    destruct (string_dec (lower s) "gsphere") as [Es|Ns].
    { left. rewrite (braket_gsphere s lhs (Other w) Es). reflexivity. }
    destruct (string_dec (lower s) "r") as [Er|Nr].
    { rewrite (braket_r_eq s lhs (Other w) Er).
      destruct (ur lhs) as [[r1|e1] l1]; [|now left].
      right; left.
      destruct (ur w) as [[r2|e2] x1]; [|reflexivity]. cbv beta zeta.
      destruct (vdot r1 r2); [destruct (_mesh l1)|]; reflexivity. }
    left. rewrite braket_wrong_space; [reflexivity|].
    intros [H|[H|[H|[]]]]; congruence.
Qed.

Lemma same_wave_refl (w : WaveFunction) : same_wave w w.
Proof. repeat split. Qed.

Lemma same_wave_trans (a b c : WaveFunction) :
  same_wave a b -> same_wave b c -> same_wave a c.
Proof.
  unfold same_wave. intros (A1 & A2 & A3 & A4 & A5) (B1 & B2 & B3 & B4 & B5).
  repeat split; congruence.
Qed.

Lemma transform_same (a b : WaveFunction) (m : Mesh3D) :
  same_wave a b -> transform b m = transform a m.
Proof.
  intros (_ & _ & _ & Hg & Hu). unfold transform, gsphere, ug. now rewrite Hg, Hu.
Qed.

Lemma ur_state (w : WaveFunction) :
  same_wave w (snd (ur w)) /\ _mesh (snd (ur w)) = _mesh w /\
  (coherent w -> coherent (snd (ur w))).
Proof.
  rewrite ur_eq. destruct (_ur w) as [r|] eqn:Hu.
  - simpl. split; [apply same_wave_refl|]. split; [reflexivity|auto].
  - destruct (_mesh w) as [m|] eqn:Hm; simpl.
    + split; [unfold same_wave; simpl; tauto|]. split; [exact Hm|].
      intros _. unfold coherent. simpl. exists m. split; [exact Hm|reflexivity].
    + split; [apply same_wave_refl|]. split; [exact Hm|auto].
Qed.

Lemma after_keeps (c : call) (w : WaveFunction) :
  same_wave w (after c w) /\ (coherent w -> coherent (after c w)).
Proof.
  destruct (after_cases c w) as [E|[E|[m E]]]; rewrite E.
  - split; [apply same_wave_refl|auto].
  - destruct (ur_state w) as (H1 & _ & H2). split; assumption.
  - split; [unfold same_wave; simpl; tauto|]. intros _. exact I.
Qed.

Lemma after_all_keeps (cs : list call) (w : WaveFunction) :
  coherent w -> same_wave w (after_all cs w) /\ coherent (after_all cs w).
Proof.
  revert w. induction cs as [|c cs IH]; intros w Hc; simpl.
  - split; [apply same_wave_refl|exact Hc].
  - destruct (after_keeps c w) as [Hs Hk].
    destruct (IH (after c w) (Hk Hc)) as [Hs' Hc'].
    split; [exact (same_wave_trans _ _ _ Hs Hs')|exact Hc'].
Qed.

End LifeFacts.

Section CacheAndMesh.

Context {collab : Collaborators}.

(** X1.  [set_mesh] always succeeds, keeps the indices, the sphere and the
    coefficients, and discards the cache: the next [ur] returns the
    transform of the coefficients on the new mesh, whatever was cached
    before, and caches it. *)
Theorem set_mesh_then_ur (w : WaveFunction) (m : Mesh3D) :
  exists w1,
    set_mesh m w = (Ok tt, w1) /\
    same_wave w w1 /\ _mesh w1 = Some m /\ _ur w1 = None /\
    ur w1 = (Ok (transform w m), with_ur w1 (Some (transform w m))).
Proof.
  exists (with_ur (with_mesh w (Some m)) None).
  split; [reflexivity|].
  split; [unfold same_wave; simpl; tauto|].
  split; [reflexivity|]. split; [reflexivity|].
  rewrite (ur_computed (with_ur (with_mesh w (Some m)) None) m eq_refl eq_refl).
  reflexivity.
Qed.

(** X2.  [ur] is memoized: once it has returned an array, the array is in the
    cache, and reading [ur] again returns the same array and changes
    nothing. *)
Theorem ur_memoized (w w1 : WaveFunction) (r : ndarray C) :
  ur w = (Ok r, w1) ->
  _ur w1 = Some r /\ same_wave w w1 /\ ur w1 = (Ok r, w1).
Proof.
  intros H. pose proof (ur_leaves_cache w w1 r H) as Hc.
  split; [exact Hc|]. split.
  - destruct (ur_state w) as [Hs _]. rewrite H in Hs. exact Hs.
  - exact (ur_cached w1 r Hc).
Qed.

(** X3.  The constructor attaches no mesh: on a wavefunction it has just
    built, [ur], [norm2("r")], [braket(., "g")] and [braket(., "r")] raise an
    AttributeError for the attribute [_mesh] and leave the objects as they
    were. *)
Theorem fresh_wave_has_no_mesh
  (n sp b : Z) (g : GSphere) (u : ndarray C) (w : WaveFunction) (o : operand) :
  PWWaveFunction n sp b g u = Ok w ->
  ur w = (Raise (AttributeError "_mesh"), w) /\
  norm2 "r" w = (Raise (AttributeError "_mesh"), w) /\
  braket "g" (w, o) = (Raise (AttributeError "_mesh"), (w, o)) /\
  braket "r" (w, o) = (Raise (AttributeError "_mesh"), (w, o)).
Proof.
  intros H. apply constructor_inv in H. subst w.
  set (w := mkWave n sp b g (np_array u) None None).
  assert (Hur : ur w = (Raise (AttributeError "_mesh"), w))
    by (apply ur_no_mesh; reflexivity).
  split; [exact Hur|].
  split; [rewrite (norm2_r "r" w eq_refl); reflexivity|].
  split; [rewrite (braket_g "g" w o eq_refl); reflexivity|].
  rewrite (braket_r_eq "r" w o eq_refl), Hur. reflexivity.
Qed.

(** X4.  [rotate] does not carry the mesh or the cache over: whatever the
    state of the wavefunction it is given, the wavefunction it returns has
    neither, and [ur] and [norm2("r")] raise on it until a mesh is set. *)
Theorem rotate_drops_mesh (w w' : WaveFunction) (s : SymmOp) :
  rotate w s = Ok w' ->
  _mesh w' = None /\ _ur w' = None /\
  ur w' = (Raise (AttributeError "_mesh"), w') /\
  norm2 "r" w' = (Raise (AttributeError "_mesh"), w').
Proof.
  intros H. unfold rotate in H.
  destruct (negb (nspinor w =? 1)%Z); [discriminate|].
  match type of H with
  | bind ?m _ = _ => destruct m as [rot_ug|e]; [|discriminate]
  end.
  simpl bind in H. apply constructor_inv in H. subst w'. simpl.
  split; [reflexivity|]. split; [reflexivity|].
  split; [apply ur_no_mesh; reflexivity|].
  rewrite norm2_r by reflexivity. reflexivity.
Qed.

(** X5.  [ur] never returns a stale array.  After any sequence of calls on a
    wavefunction the constructor has built, [ur] returns the transform of
    the coefficients on the mesh in place, and raises an AttributeError
    exactly when no mesh is in place. *)
Theorem ur_never_stale
  (n sp b : Z) (g : GSphere) (u : ndarray C) (w : WaveFunction) (cs : list call) :
  PWWaveFunction n sp b g u = Ok w ->
  fst (ur (after_all cs w)) =
  match _mesh (after_all cs w) with
  | Some m => Ok (transform w m)
  | None => Raise (AttributeError "_mesh")
  end.
Proof.
  intros H. apply constructor_inv in H.
  assert (Hc : coherent w) by (subst w; exact I).
  destruct (after_all_keeps cs w Hc) as [Hs Hk].
  set (w' := after_all cs w) in *.
  rewrite ur_eq. unfold coherent in Hk.
  destruct (_ur w') as [r|] eqn:Hu.
  - destruct Hk as (m & Hm & Hr). rewrite Hm. simpl.
    now rewrite Hr, (transform_same w w' m Hs).
  - destruct (_mesh w') as [m|]; simpl; [|reflexivity].
    f_equal. apply (transform_same w w' m Hs).
Qed.

(** X6.  No sequence of calls changes what the wavefunction is: the indices,
    the sphere and the coefficient array stay those the constructor was
    given, and the shape of the array stays [(nspinor, npw)]. *)
Theorem calls_keep_wave
  (n sp b : Z) (g : GSphere) (u : ndarray C) (w : WaveFunction) (cs : list call) :
  nd_wf u ->
  PWWaveFunction n sp b g u = Ok w ->
  nspinor (after_all cs w) = n /\ spin (after_all cs w) = sp /\
  band (after_all cs w) = b /\ gsphere (after_all cs w) = g /\
  shape (ug (after_all cs w)) = shape u /\ data (ug (after_all cs w)) = data u /\
  valid (after_all cs w).
Proof.
  intros Hwf H.
  pose proof (constructor_valid n sp b g u w Hwf H) as Hv.
  apply constructor_inv in H.
  assert (Hc : coherent w) by (subst w; exact I).
  destruct (after_all_keeps cs w Hc) as [(H1 & H2 & H3 & H4 & H5) _].
  unfold gsphere, ug. rewrite H1, H2, H3, H4, H5.
  split; [subst w; reflexivity|]. split; [subst w; reflexivity|].
  split; [subst w; reflexivity|]. split; [subst w; reflexivity|].
  split; [subst w; reflexivity|]. split; [subst w; reflexivity|].
  destruct Hv as [Hv1 Hv2]. split.
  - now rewrite H5.
  - unfold wave_shape, npw, gsphere. now rewrite H5, H1, H4.
Qed.

(** X7.  [ur2] is the squared modulus of [ur], cell by cell: the array it
    returns has the shape of [ur], holds [|ur|^2] in every cell, and none of
    its entries is negative. *)
Theorem ur2_is_squared_modulus (w w1 : WaveFunction) (d : ndarray R) :
  ur2 w = (Ok d, w1) ->
  exists r,
    ur w = (Ok r, w1) /\ shape d = shape r /\
    data d = map Cnorm2 (data r) /\
    Forall (fun x => (0 <= x)%R) (data d).
Proof.
  rewrite ur2_eq. destruct (ur w) as [[r|e] w'] eqn:E; [|discriminate].
  intros H. injection H as <- <-. exists r.
  split; [reflexivity|]. split; [reflexivity|]. split; [reflexivity|].
  simpl. apply Forall_forall. intros x Hx. apply in_map_iff in Hx.
  destruct Hx as (c & <- & _). apply Cnorm2_nonneg.
Qed.

(** X8.  With a mesh in place [norm2("r")] does not raise: it integrates the
    squared modulus of the transform of the coefficients (or of the cached
    [ur]), leaves [ur] cached, and gives the same number when called again. *)
Theorem norm2_r_repeatable (w : WaveFunction) (m : Mesh3D) :
  _mesh w = Some m ->
  exists r w1,
    ur w = (Ok r, w1) /\
    norm2 "r" w = (Ok (Re (integrate m (squared_modulus r))), w1) /\
    norm2 "r" w1 = (Ok (Re (integrate m (squared_modulus r))), w1).
Proof.
  intros Hm.
  assert (Hur : exists r w1, ur w = (Ok r, w1)).
  { rewrite ur_eq, Hm. destruct (_ur w); eauto. }
  destruct Hur as (r & w1 & Hur). exists r, w1.
  split; [exact Hur|].
  destruct (ur_state w) as (_ & Hm1 & _). rewrite Hur in Hm1. simpl in Hm1.
  pose proof (ur_cached w1 r (ur_leaves_cache w w1 r Hur)) as Hur1.
  split.
  - rewrite (norm2_r "r" w eq_refl), Hm, ur2_eq, Hur. reflexivity.
  - rewrite (norm2_r "r" w1 eq_refl), Hm1, Hm, ur2_eq, Hur1. reflexivity.
Qed.

(** X9.  A failed [braket] can leave a trace: when [self] has a mesh and no
    cache and the other wavefunction has neither, [braket(other, "r")]
    raises the AttributeError of the other wavefunction after it has
    computed and cached [ur] on [self]. *)
Theorem braket_r_failure_fills_cache (w o : WaveFunction) (m : Mesh3D) :
  _mesh w = Some m -> _ur w = None ->
  _mesh o = None -> _ur o = None ->
  braket "r" (w, Other o) =
  (Raise (AttributeError "_mesh"), (with_ur w (Some (transform w m)), Other o)).
Proof.
  intros Hm Hu Hom Hou.
  rewrite (braket_r_eq "r" w (Other o) eq_refl).
  rewrite (ur_computed w m Hm Hu), (ur_no_mesh o Hom Hou). reflexivity.
Qed.

(** X10.  The inner product of a wavefunction with itself is real in every
    space: whenever [braket(self, self, space)] returns, the imaginary part
    of the value is zero, and in the spaces "g" and "gsphere" the value is
    not negative. *)
Theorem self_braket_is_real
  (s : string) (w : WaveFunction) (z : C) (st : WaveFunction * operand) :
  braket s (w, Self) = (Ok z, st) ->
  Im z = 0%R /\ (lower s <> "r"%string -> (0 <= Re z)%R).
Proof.
  intros H.
  destruct (string_dec (lower s) "g") as [Eg|Ng].
  { rewrite (braket_g s w Self Eg) in H.
    destruct (_mesh w) as [m|]; [|discriminate].
    simpl operand_obj in H. rewrite vdot_self in H. injection H as <- _.
    split; [reflexivity|]. intros _. apply Rsum_Cnorm2_nonneg. }
  destruct (string_dec (lower s) "gsphere") as [Es|Ns].
  { rewrite (braket_gsphere s w Self Es) in H.
    simpl operand_obj in H. rewrite vdot_self in H. injection H as <- _.
    split; [reflexivity|]. intros _. apply Rsum_Cnorm2_nonneg. }
  destruct (string_dec (lower s) "r") as [Er|Nr].
  { split; [|congruence].
    rewrite (braket_r_eq s w Self Er) in H.
    destruct (ur w) as [[r1|e1] w1]; [|discriminate].
    cbv beta zeta in H. rewrite vdot_self in H.
    destruct (_mesh w1) as [m|]; [|discriminate].
    injection H as <- _. simpl. ring. }
  rewrite braket_wrong_space in H; [discriminate|].
  intros [E|[E|[E|[]]]]; congruence.
Qed.

End CacheAndMesh.

(** * Inner products, equality and rotation *)

Lemma vdot_fold_conj (a b : list C) :
  forall acc,
  fold_left (fun x p => Cadd x (Cmul (Cconj (fst p)) (snd p))) (combine b a) (Cconj acc) =
  Cconj (fold_left (fun x p => Cadd x (Cmul (Cconj (fst p)) (snd p))) (combine a b) acc).
Proof.
  revert b. induction a as [|x a IH]; intros [|y b] acc; simpl; try reflexivity.
  rewrite <- IH. f_equal. apply C_eq; simpl; ring.
Qed.

Lemma vdot_conj (a b : ndarray C) :
  vdot b a =
  match vdot a b with
  | Ok z => Ok (Cconj z)
  | Raise e => Raise e
  end.
Proof.
  unfold vdot. rewrite (Nat.eqb_sym (length (data b))).
  destruct (length (data a) =? length (data b)); [|reflexivity].
  f_equal. rewrite <- vdot_fold_conj. f_equal. apply C_eq; simpl; ring.
Qed.

Lemma vdot_fold_pointwise :
  forall (a b a' b' : list C) (acc : C),
  length a' = length a -> length b' = length b ->
  (forall i, Cmul (Cconj (nth i a' C0)) (nth i b' C0) =
             Cmul (Cconj (nth i a C0)) (nth i b C0)) ->
  fold_left (fun x p => Cadd x (Cmul (Cconj (fst p)) (snd p))) (combine a' b') acc =
  fold_left (fun x p => Cadd x (Cmul (Cconj (fst p)) (snd p))) (combine a b) acc.
Proof.
  induction a as [|x a IH]; intros b a' b' acc Ha Hb H.
  - destruct a'; [reflexivity|discriminate].
  - destruct a' as [|x' a']; [discriminate|].
    destruct b as [|y b]; destruct b' as [|y' b']; try discriminate; [reflexivity|].
    pose proof (H 0) as H0. simpl in H0. simpl. rewrite H0. apply IH.
    + simpl in Ha. lia.
    + simpl in Hb. lia.
    + intros i. exact (H (S i)).
Qed.

Lemma Cnorm2_phase (g : vec3 Z) (k t : vec3 R) : Cnorm2 (phase g k t) = 1%R.
Proof.
  rewrite phase_euler. unfold Cnorm2, unit_phase. simpl.
  pose proof (sin2_cos2 (2 * PI * dot3 (vadd_ZR g k) t)) as H. unfold Rsqr in H.
  lra.
Qed.

Lemma Cmul_conj_common (a b p : C) :
  Cnorm2 p = 1%R ->
  Cmul (Cconj (Cmul a p)) (Cmul b p) = Cmul (Cconj a) b.
Proof.
  unfold Cnorm2. intros H. apply C_eq; simpl.
  - replace ((Re a * Re p - Im a * Im p) * (Re b * Re p - Im b * Im p) -
             - (Re a * Im p + Im a * Re p) * (Re b * Im p + Im b * Re p))%R
      with ((Re a * Re b - - Im a * Im b) * (Re p * Re p + Im p * Im p))%R by ring.
    rewrite H. ring.
  - replace ((Re a * Re p - Im a * Im p) * (Re b * Im p + Im b * Re p) +
             - (Re a * Im p + Im a * Re p) * (Re b * Re p - Im b * Im p))%R
      with ((Re a * Im b + - Im a * Re b) * (Re p * Re p + Im p * Im p))%R by ring.
    rewrite H. ring.
Qed.

Section InnerProducts.

Context {collab : Collaborators}.

(** X11.  The inner product on the sphere is conjugate symmetric:
    [braket(b, a, "gsphere")] is the complex conjugate of
    [braket(a, b, "gsphere")], and raises the same error when the two
    coefficient arrays differ in size. *)
Theorem braket_gsphere_conjugate_symmetric (a b : WaveFunction) :
  braket "gsphere" (b, Other a) =
  (match fst (braket "gsphere" (a, Other b)) with
   | Ok z => Ok (Cconj z)
   | Raise e => Raise e
   end, (b, Other a)).
Proof.
  rewrite !(braket_gsphere "gsphere" _ _ eq_refl). simpl.
  now rewrite vdot_conj.
Qed.

(** X12.  [==] on wavefunctions: a wavefunction whose array is an array is
    equal to itself and not [!=] to itself, no wavefunction is equal to
    [None], and wavefunctions on different spheres are unequal whatever
    their coefficients are. *)
Theorem eq_basics (w o : WaveFunction) :
  valid w -> gsphere w <> gsphere o ->
  __eq__ w (Some w) = Ok true /\ __ne__ w (Some w) = Ok false /\
  __eq__ w None = Ok false /\
  __eq__ w (Some o) = Ok false /\ __ne__ w (Some o) = Ok true.
Proof.
  intros [Hwf _] Hne.
  assert (E1 : __eq__ w (Some w) = Ok true).
  { unfold __eq__.
    replace (gsphere_ne (gsphere w) (gsphere w)) with false
      by (symmetry; now apply gsphere_ne_false).
    now apply allclose_refl. }
  assert (E2 : __eq__ w (Some o) = Ok false).
  { unfold __eq__, gsphere_ne.
    destruct (GSphere_eq_dec (gsphere w) (gsphere o)); [contradiction|reflexivity]. }
  unfold __ne__. rewrite E1, E2. repeat split.
Qed.

(** X13.  Within numpy's tolerance a translation counts as zero: when every
    component of [tau] is at most 1e-8 in absolute value, [rotate] on a
    single-spinor wavefunction returns the coefficient array unchanged. *)
Theorem rotate_within_tolerance_copies (w : WaveFunction) (s : SymmOp) :
  valid w -> nspinor w = 1%Z ->
  (Rabs (v1 (tau s)) <= 1e-8 /\ Rabs (v2 (tau s)) <= 1e-8 /\
   Rabs (v3 (tau s)) <= 1e-8)%R ->
  exists w', rotate w s = Ok w' /\ ug w' = ug w.
Proof.
  intros Hv H1 Ht.
  assert (Hc : allclose3 (tau s) zeros3 = true) by (apply allclose3_zeros; exact Ht).
  rewrite (rotate_without_translation w s Hv H1 Hc).
  eexists. split; reflexivity.
Qed.

(** X14.  [rotate] on a single-spinor wavefunction always returns: the new
    wavefunction is single-spinor with the band of the old one, stands on
    the rotated sphere, and its coefficient array has the shape of the old
    one, which is the shape its own sphere asks for. *)
Theorem rotate_returns_valid_wave (w : WaveFunction) (s : SymmOp) :
  valid w -> nspinor w = 1%Z ->
  exists w',
    rotate w s = Ok w' /\ valid w' /\
    nspinor w' = 1%Z /\ band w' = band w /\
    gsphere w' = gsphere_rotate (gsphere w) s /\
    npw w' = npw w /\ shape (ug w') = shape (ug w).
Proof.
  intros Hv H1.
  destruct (rotate_succeeds w s Hv H1) as (w' & Hr & Hv' & H1' & _ & Hb & Hg).
  exists w'. split; [exact Hr|]. split; [exact Hv'|].
  split; [exact H1'|]. split; [exact Hb|]. split; [exact Hg|].
  assert (Hn : npw w' = npw w).
  { unfold npw. rewrite Hg. apply gsphere_rotate_len. }
  split; [exact Hn|].
  destruct (valid_single_spinor w Hv H1) as [Hs _].
  destruct (valid_single_spinor w' Hv' H1') as [Hs' _].
  unfold ug. now rewrite Hs, Hs', Hn.
Qed.

(** X15.  Rotation is unitary on the sphere: for two single-spinor
    wavefunctions on one sphere, the inner product of the rotated
    wavefunctions is the inner product of the originals. *)
Theorem rotate_preserves_braket (w1 w2 : WaveFunction) (s : SymmOp) :
  valid w1 -> valid w2 -> nspinor w1 = 1%Z -> nspinor w2 = 1%Z ->
  gsphere w1 = gsphere w2 ->
  exists w1' w2' z,
    rotate w1 s = Ok w1' /\ rotate w2 s = Ok w2' /\
    braket "gsphere" (w1, Other w2) = (Ok z, (w1, Other w2)) /\
    braket "gsphere" (w1', Other w2') = (Ok z, (w1', Other w2')).
Proof.
  intros Hv1 Hv2 H1 H2 Hg.
  destruct (valid_single_spinor w1 Hv1 H1) as [_ Hl1].
  destruct (valid_single_spinor w2 Hv2 H2) as [_ Hl2].
  assert (Hn : npw w2 = npw w1) by (unfold npw; now rewrite Hg).
  assert (Hb : forall a b : WaveFunction,
            length (data (_ug a)) = length (data (_ug b)) ->
            braket "gsphere" (a, Other b) =
            (Ok (fold_left (fun x p => Cadd x (Cmul (Cconj (fst p)) (snd p)))
                           (combine (data (_ug a)) (data (_ug b))) C0),
             (a, Other b))).
  { intros a b Hl. rewrite (braket_gsphere "gsphere" a (Other b) eq_refl).
    unfold vdot, ug. simpl operand_obj. rewrite Hl, Nat.eqb_refl. reflexivity. }
  destruct (allclose3 (tau s) zeros3) eqn:Hc.
  - do 2 eexists. eexists.
    split; [exact (rotate_without_translation w1 s Hv1 H1 Hc)|].
    split; [exact (rotate_without_translation w2 s Hv2 H2 Hc)|].
    rewrite !Hb by (simpl; congruence). split; reflexivity.
  - destruct (rotate_with_translation w1 s Hv1 H1 Hc) as (d1 & Hr1 & Hd1 & Hn1).
    destruct (rotate_with_translation w2 s Hv2 H2 Hc) as (d2 & Hr2 & Hd2 & Hn2).
    do 2 eexists. eexists.
    split; [exact Hr1|]. split; [exact Hr2|].
    rewrite !Hb by (simpl; congruence). split; [reflexivity|].
    simpl _ug. simpl data. do 2 f_equal.
    apply vdot_fold_pointwise; [congruence|congruence|].
    intros i. destruct (Nat.lt_ge_cases i (npw w1)) as [Hi|Hi].
    + rewrite (Hn1 i Hi), (Hn2 i ltac:(lia)), <- Hg.
      apply Cmul_conj_common, Cnorm2_phase.
    + rewrite (nth_overflow d1), (nth_overflow (data (_ug w1))) by lia.
      apply C_eq; simpl; ring.
Qed.

End InnerProducts.

(** X16.  The phase of [rotate] has modulus one for every G-vector, k-point
    and translation, and is exactly 1 for a zero translation: at
    [tau = 0] the phase formula and the plain copy give the same
    coefficients. *)
Theorem phase_is_unit (g : vec3 Z) (k t : vec3 R) (c : C) :
  Cnorm2 (phase g k t) = 1%R /\
  phase g k zeros3 = C1 /\
  Cmul c (phase g k zeros3) = c.
Proof.
  split; [apply Cnorm2_phase|].
  assert (E : phase g k zeros3 = C1).
  { rewrite phase_euler. unfold unit_phase, dot3, zeros3. simpl.
    replace (2 * PI * ((IZR (v1 g) + v1 k) * 0 + (IZR (v2 g) + v2 k) * 0 +
                       (IZR (v3 g) + v3 k) * 0))%R with 0%R by ring.
    rewrite cos_0, sin_0. apply C_eq; simpl; ring. }
  split; [exact E|]. rewrite E. apply C_eq; simpl; ring.
Qed.

(** * File names *)

Lemma eqb_dot (x : ascii) : Ascii.eqb x "." = true -> x = "."%char.
Proof. apply Ascii.eqb_eq. Qed.

(** The tokens of a string: one token when the separator does not occur,
    otherwise at least two, and the last one is what follows the last
    separator. *)
Lemma split_shape (c : ascii) (s : string) :
  (contains_char c s = false -> split c s = [s]) /\
  (contains_char c s = true ->
   exists base t ts,
     split c s = t :: ts /\ ts <> [] /\
     s = (base ++ String c (last ts EmptyString))%string /\
     contains_char c (last ts EmptyString) = false).
Proof.
  induction s as [|x s [IH0 IH1]]; simpl.
  - split; [reflexivity|discriminate].
  - destruct (Ascii.eqb x c) eqn:Ex; simpl.
    + apply Ascii.eqb_eq in Ex. subst x.
      split; [discriminate|]. intros _.
      destruct (contains_char c s) eqn:Hc.
      * destruct (IH1 eq_refl) as (base & t & ts & Hs & Hts & Hb & Hl).
        exists (String c base), EmptyString, (t :: ts).
        rewrite Hs. split; [reflexivity|]. split; [discriminate|].
        destruct ts as [|t' ts]; [contradiction|].
        change (last (t :: t' :: ts) EmptyString) with (last (t' :: ts) EmptyString).
        split; [cbn [append]; f_equal; exact Hb|exact Hl].
      * exists EmptyString, EmptyString, [s].
        rewrite (IH0 eq_refl). split; [reflexivity|]. split; [discriminate|].
        split; [reflexivity|exact Hc].
    + split.
      * intros Hc. now rewrite (IH0 Hc).
      * intros Hc. destruct (IH1 Hc) as (base & t & ts & Hs & Hts & Hb & Hl).
        exists (String x base), (String x t), ts.
        rewrite Hs. split; [reflexivity|]. split; [exact Hts|].
        split; [cbn [append]; f_equal; exact Hb|exact Hl].
Qed.

Lemma split_head_empty (c : ascii) (s : string) :
  hd EmptyString (split c s) = EmptyString <->
  s = EmptyString \/ exists s', s = String c s'.
Proof.
  destruct s as [|x s]; simpl.
  - split; auto.
  - destruct (Ascii.eqb x c) eqn:Ex; simpl.
    + apply Ascii.eqb_eq in Ex. subst x. split; eauto.
    + split.
      * destruct (split c s); simpl; discriminate.
      * intros [H|[s' H]]; [discriminate|].
        injection H as -> _. rewrite Ascii.eqb_refl in Ex. discriminate.
Qed.

Lemma lstrip_keeps (c : ascii) (s : string) :
  is_space c = false -> contains_char c (lstrip s) = contains_char c s.
Proof.
  intros Hc. induction s as [|x s IH]; simpl; [reflexivity|].
  destruct (is_space x) eqn:Hx; [|reflexivity].
  rewrite IH. destruct (Ascii.eqb x c) eqn:Ex; [|reflexivity].
  apply Ascii.eqb_eq in Ex. congruence.
Qed.

Lemma rstrip_keeps (c : ascii) (s : string) :
  is_space c = false -> contains_char c (rstrip s) = contains_char c s.
Proof.
  intros Hc. induction s as [|x s IH]; simpl; [reflexivity|].
  destruct (rstrip s) as [|y t] eqn:Er.
  - simpl in IH. rewrite <- IH.
    destruct (is_space x) eqn:Hx; simpl.
    + destruct (Ascii.eqb x c) eqn:Ex; [|reflexivity].
      apply Ascii.eqb_eq in Ex. congruence.
    + now rewrite orb_false_r.
  - change (contains_char c (String x (String y t)))
      with (Ascii.eqb x c || contains_char c (String y t)).
    now rewrite IH.
Qed.

Lemma strip_keeps_dot (s : string) :
  contains_char "." (strip s) = contains_char "." s.
Proof.
  unfold strip. rewrite rstrip_keeps, lstrip_keeps; reflexivity.
Qed.

(** X17.  The extension [export_ur2] dispatches on is what follows the last
    dot of the stripped file name, and contains no dot; the export goes to
    a temporary file exactly when the stripped name begins with a dot. *)
Theorem extension_follows_last_dot (filename : string) :
  contains_char "." filename = true ->
  (exists base, strip filename = (base ++ "." ++ extension_of filename)%string) /\
  contains_char "." (extension_of filename) = false /\
  (uses_temp filename = true <-> exists rest, strip filename = String "." rest).
Proof.
  intros H. rewrite <- strip_keeps_dot in H.
  destruct (split_shape "." (strip filename)) as [_ H1].
  destruct (H1 H) as (base & t & ts & Hs & Hts & Hb & Hl).
  assert (E : extension_of filename = last ts EmptyString).
  { unfold extension_of. rewrite Hs. destruct ts; [contradiction|reflexivity]. }
  rewrite E. split; [exists base; exact Hb|]. split; [exact Hl|].
  unfold uses_temp. rewrite String.eqb_eq, split_head_empty.
  split.
  - intros [H0|H0]; [|exact H0]. rewrite H0 in H. discriminate.
  - intros H0. right. exact H0.
Qed.

(** * Export *)

Section ExportFacts.

Context {collab : Collaborators}.

Variable Structure : Type.
Variable Visualizer : Type.
Variable mkstemp : string -> string.
Variable can_open : string -> bool.
Variable from_file : string -> outcome Visualizer.

Let export := export_ur2 (Structure := Structure) mkstemp can_open from_file.

(** [export_ur2] on a file name with a dot, read as one case analysis. *)
Lemma export_eq (filename : string) (st : Structure) (w : WaveFunction) :
  contains_char "." filename = true ->
  export filename st w =
  let target := export_target mkstemp filename in
  let ev := temp_events mkstemp filename in
  match ur w with
  | (Raise e, w1) => (Raised (Py e), w1, ev)
  | (Ok r, w1) =>
      if length (data r) =? size_of (1 :: shape r) then
        if can_open target then
          if String.eqb (extension_of filename) "xsf" then
            (from_file target, w1,
             ev ++ [EvOpen target; EvWriteStructure target st;
                    EvWriteData target st
                      (mk_ndarray (1 :: shape r) (map Cnorm2 (data r))) true;
                    EvClose target])
          else
            (Raised (NotImplementedError
                       ("extension " ++ extension_of filename ++ " is not supported.")),
             w1, ev ++ [EvOpen target; EvClose target])
        else (Raised (IOError target), w1, ev)
      else (Raised (Py (ValueError "cannot reshape array")), w1, ev)
  end.
Proof.
  intros Hdot. unfold export, export_ur2. rewrite Hdot. simpl negb. cbv iota.
  unfold temp_events. unfold export_target, uses_temp. cbv zeta.
  rewrite ur2_eq.
  destruct (String.eqb (hd EmptyString (split "." (strip filename))) EmptyString);
    destruct (ur w) as [[r|e] w1] eqn:Hur; try reflexivity;
    cbv beta iota;
    rewrite ur2_eq, (ur_cached w1 r (ur_leaves_cache w w1 r Hur));
    unfold reshape, squared_modulus; cbn [shape data]; rewrite length_map;
    destruct (length (data r) =? size_of (1 :: shape r)); reflexivity.
Qed.



(** X20.  For the extension "xsf", with [ur] available and the file
    writable, the export opens the file, writes the structure and then
    [|ur|^2] under one more leading axis of length 1, closes the file and
    hands the file name to the visualizer. *)
Theorem export_xsf_writes
  (filename : string) (st : Structure) (w w1 : WaveFunction) (r : ndarray C) :
  contains_char "." filename = true ->
  extension_of filename = "xsf"%string ->
  ur w = (Ok r, w1) -> nd_wf r ->
  can_open (export_target mkstemp filename) = true ->
  export filename st w =
  (from_file (export_target mkstemp filename), w1,
   temp_events mkstemp filename ++
   [EvOpen (export_target mkstemp filename);
    EvWriteStructure (export_target mkstemp filename) st;
    EvWriteData (export_target mkstemp filename) st
      (mk_ndarray (1 :: shape r) (map Cnorm2 (data r))) true;
    EvClose (export_target mkstemp filename)]).
Proof.
  intros Hdot Hext Hur Hwf Hopen.
  rewrite (export_eq filename st w Hdot), Hur. cbv zeta.
  replace (length (data r) =? size_of (1 :: shape r)) with true
    by (symmetry; apply Nat.eqb_eq; unfold nd_wf in Hwf; simpl; lia).
  rewrite Hopen, Hext. reflexivity.
Qed.





End ExportFacts.

(** * The further properties on sample objects *)

Import Sample2.

Lemma w1_valid : valid w1.
Proof. split; reflexivity. Qed.

Lemma ur_w0_mesh : ur w0_mesh = (Ok u0, w0_cached).
Proof. rewrite ur_eq. reflexivity. Qed.

Lemma w0_constructed : PWWaveFunction 1 0 0 g0 u0 = Ok w0.
Proof. reflexivity. Qed.

(** Reading [ur] on the sample wavefunction with a mesh fills the cache. *)
Lemma ur_memoized_witness :
  ur w0_mesh = (Ok u0, w0_cached) /\
  _ur w0_cached = Some u0 /\ same_wave w0_mesh w0_cached /\
  ur w0_cached = (Ok u0, w0_cached).
Proof.
  split; [exact ur_w0_mesh|].
  exact (ur_memoized w0_mesh w0_cached u0 ur_w0_mesh).
Defined.

(** The sample wavefunction as the constructor builds it. *)
Lemma fresh_wave_has_no_mesh_witness :
  PWWaveFunction 1 0 0 g0 u0 = Ok w0 /\
  ur w0 = (Raise (AttributeError "_mesh"), w0) /\
  norm2 "r" w0 = (Raise (AttributeError "_mesh"), w0) /\
  braket "g" (w0, Other w1) = (Raise (AttributeError "_mesh"), (w0, Other w1)) /\
  braket "r" (w0, Other w1) = (Raise (AttributeError "_mesh"), (w0, Other w1)).
Proof.
  split; [exact w0_constructed|].
  exact (fresh_wave_has_no_mesh 1 0 0 g0 u0 w0 (Other w1) w0_constructed).
Defined.

Lemma rotate_w0_cached :
  rotate w0_cached identity_op =
  Ok (mkWave 1 0 0 (gsphere_rotate g0 identity_op) u0 None None).
Proof.
  exact (rotate_without_translation w0_cached identity_op w0_cached_valid eq_refl
           allclose3_exact_zero).
Qed.

(** The sample wavefunction with a mesh and a cache, rotated by the identity. *)
Lemma rotate_drops_mesh_witness :
  rotate w0_cached identity_op =
    Ok (mkWave 1 0 0 (gsphere_rotate g0 identity_op) u0 None None) /\
  _mesh w0_cached = Some tt /\
  _mesh (mkWave 1 0 0 (gsphere_rotate g0 identity_op) u0 None None) = None /\
  norm2 "r" (mkWave 1 0 0 (gsphere_rotate g0 identity_op) u0 None None) =
    (Raise (AttributeError "_mesh"),
     mkWave 1 0 0 (gsphere_rotate g0 identity_op) u0 None None).
Proof.
  split; [exact rotate_w0_cached|]. split; [reflexivity|].
  destruct (rotate_drops_mesh w0_cached _ identity_op rotate_w0_cached)
    as (Hm & _ & _ & Hn).
  split; [exact Hm|exact Hn].
Defined.

(** A sequence of calls on the sample wavefunction. *)
Lemma ur_never_stale_witness :
  PWWaveFunction 1 0 0 g0 u0 = Ok w0 /\
  fst (ur (after_all sample_calls w0)) =
  match _mesh (after_all sample_calls w0) with
  | Some m => Ok (transform w0 m)
  | None => Raise (AttributeError "_mesh")
  end.
Proof.
  split; [exact w0_constructed|].
  exact (ur_never_stale 1 0 0 g0 u0 w0 sample_calls w0_constructed).
Defined.

Lemma calls_keep_wave_witness :
  nd_wf u0 /\ PWWaveFunction 1 0 0 g0 u0 = Ok w0 /\
  nspinor (after_all sample_calls w0) = 1%Z /\
  gsphere (after_all sample_calls w0) = g0 /\
  data (ug (after_all sample_calls w0)) = data u0 /\
  valid (after_all sample_calls w0).
Proof.
  assert (Hwf : nd_wf u0) by reflexivity.
  split; [exact Hwf|]. split; [exact w0_constructed|].
  destruct (calls_keep_wave 1 0 0 g0 u0 w0 sample_calls Hwf w0_constructed)
    as (H1 & _ & _ & H4 & _ & H6 & H7).
  split; [exact H1|]. split; [exact H4|]. split; [exact H6|exact H7].
Defined.

Lemma ur2_w0_mesh : ur2 w0_mesh = (Ok (squared_modulus u0), w0_cached).
Proof. rewrite ur2_eq, ur_w0_mesh. reflexivity. Qed.

Lemma ur2_is_squared_modulus_witness :
  ur2 w0_mesh = (Ok (squared_modulus u0), w0_cached) /\
  exists r,
    ur w0_mesh = (Ok r, w0_cached) /\ shape (squared_modulus u0) = shape r /\
    data (squared_modulus u0) = map Cnorm2 (data r) /\
    Forall (fun x => (0 <= x)%R) (data (squared_modulus u0)).
Proof.
  split; [exact ur2_w0_mesh|].
  exact (ur2_is_squared_modulus w0_mesh w0_cached (squared_modulus u0) ur2_w0_mesh).
Defined.

Lemma norm2_r_repeatable_witness :
  _mesh w0_mesh = Some tt /\
  exists r w',
    ur w0_mesh = (Ok r, w') /\
    norm2 "r" w0_mesh = (Ok (Re (integrate tt (squared_modulus r))), w') /\
    norm2 "r" w' = (Ok (Re (integrate tt (squared_modulus r))), w').
Proof.
  split; [reflexivity|].
  exact (norm2_r_repeatable w0_mesh tt eq_refl).
Defined.

Lemma braket_r_failure_fills_cache_witness :
  _mesh w0_mesh = Some tt /\ _ur w0_mesh = None /\
  _mesh w1 = None /\ _ur w1 = None /\
  braket "r" (w0_mesh, Other w1) =
  (Raise (AttributeError "_mesh"),
   (with_ur w0_mesh (Some (transform w0_mesh tt)), Other w1)).
Proof.
  repeat (split; [reflexivity|]).
  exact (braket_r_failure_fills_cache w0_mesh w1 tt eq_refl eq_refl eq_refl eq_refl).
Defined.

Lemma braket_w0_self :
  braket "gsphere" (w0, Self) = (Ok (RtoC (Rsum (map Cnorm2 (data u0)))), (w0, Self)).
Proof.
  rewrite (braket_gsphere "gsphere" w0 Self eq_refl). unfold ug. simpl.
  now rewrite vdot_self.
Qed.

Lemma self_braket_is_real_witness :
  braket "gsphere" (w0, Self) = (Ok (RtoC (Rsum (map Cnorm2 (data u0)))), (w0, Self)) /\
  Im (RtoC (Rsum (map Cnorm2 (data u0)))) = 0%R /\
  (lower "gsphere" <> "r"%string -> (0 <= Re (RtoC (Rsum (map Cnorm2 (data u0)))))%R).
Proof.
  split; [exact braket_w0_self|].
  exact (self_braket_is_real "gsphere" w0 _ _ braket_w0_self).
Defined.

Lemma spheres_differ : gsphere w0 <> gsphere w_other.
Proof. unfold gsphere. simpl. discriminate. Qed.

Lemma eq_basics_witness :
  valid w0 /\ gsphere w0 <> gsphere w_other /\
  __eq__ w0 (Some w0) = Ok true /\ __ne__ w0 (Some w0) = Ok false /\
  __eq__ w0 None = Ok false /\
  __eq__ w0 (Some w_other) = Ok false /\ __ne__ w0 (Some w_other) = Ok true.
Proof.
  split; [exact w0_valid|]. split; [exact spheres_differ|].
  exact (eq_basics w0 w_other w0_valid spheres_differ).
Defined.

Lemma tiny_within_tolerance :
  (Rabs (v1 (tau op_tiny)) <= 1e-8 /\ Rabs (v2 (tau op_tiny)) <= 1e-8 /\
   Rabs (v3 (tau op_tiny)) <= 1e-8)%R.
Proof. simpl. rewrite Rabs_R0, Rabs_right by lra. lra. Qed.

Lemma rotate_within_tolerance_copies_witness :
  valid w0 /\ nspinor w0 = 1%Z /\
  (Rabs (v1 (tau op_tiny)) <= 1e-8 /\ Rabs (v2 (tau op_tiny)) <= 1e-8 /\
   Rabs (v3 (tau op_tiny)) <= 1e-8)%R /\
  exists w', rotate w0 op_tiny = Ok w' /\ ug w' = ug w0.
Proof.
  split; [exact w0_valid|]. split; [reflexivity|].
  split; [exact tiny_within_tolerance|].
  exact (rotate_within_tolerance_copies w0 op_tiny w0_valid eq_refl tiny_within_tolerance).
Defined.

Lemma rotate_returns_valid_wave_witness :
  valid w0 /\ nspinor w0 = 1%Z /\
  exists w',
    rotate w0 op_quarter = Ok w' /\ valid w' /\
    nspinor w' = 1%Z /\ band w' = band w0 /\
    gsphere w' = gsphere_rotate (gsphere w0) op_quarter /\
    npw w' = npw w0 /\ shape (ug w') = shape (ug w0).
Proof.
  split; [exact w0_valid|]. split; [reflexivity|].
  exact (rotate_returns_valid_wave w0 op_quarter w0_valid eq_refl).
Defined.

Lemma rotate_preserves_braket_witness :
  valid w0 /\ valid w1 /\ nspinor w0 = 1%Z /\ nspinor w1 = 1%Z /\
  gsphere w0 = gsphere w1 /\
  exists w0' w1' z,
    rotate w0 op_quarter = Ok w0' /\ rotate w1 op_quarter = Ok w1' /\
    braket "gsphere" (w0, Other w1) = (Ok z, (w0, Other w1)) /\
    braket "gsphere" (w0', Other w1') = (Ok z, (w0', Other w1')).
Proof.
  split; [exact w0_valid|]. split; [exact w1_valid|].
  repeat (split; [reflexivity|]).
  exact (rotate_preserves_braket w0 w1 op_quarter w0_valid w1_valid
           eq_refl eq_refl eq_refl).
Defined.

Lemma extension_follows_last_dot_witness :
  contains_char "." " wave.tar.xsf " = true /\
  (exists base, strip " wave.tar.xsf " = (base ++ "." ++ "xsf")%string) /\
  contains_char "." "xsf" = false /\
  uses_temp " wave.tar.xsf " = false.
Proof.
  split; [reflexivity|].
  destruct (extension_follows_last_dot " wave.tar.xsf " eq_refl) as (H1 & H2 & _).
  split; [exact H1|]. split; [exact H2|reflexivity].
Defined.


Lemma u0_wf : nd_wf u0.
Proof. reflexivity. Qed.


Lemma export_xsf_writes_witness :
  contains_char "." "wave.xsf" = true /\
  extension_of "wave.xsf" = "xsf"%string /\
  ur w0_mesh = (Ok u0, w0_cached) /\ nd_wf u0 /\
  demo_can_open (export_target demo_mkstemp "wave.xsf") = true /\
  demo_export "wave.xsf" w0_mesh =
  (Returned "wave.xsf"%string, w0_cached,
   [EvOpen "wave.xsf"; EvWriteStructure "wave.xsf" tt;
    EvWriteData "wave.xsf" tt (mk_ndarray [1; 1; 2] (map Cnorm2 (data u0))) true;
    EvClose "wave.xsf"]).
Proof.
  split; [reflexivity|]. split; [reflexivity|]. split; [exact ur_w0_mesh|].
  split; [exact u0_wf|]. split; [reflexivity|].
  exact (export_xsf_writes unit string demo_mkstemp demo_can_open
           demo_from_file "wave.xsf" tt w0_mesh w0_cached u0 eq_refl eq_refl
           ur_w0_mesh u0_wf eq_refl).
Defined.

